(** * knowhere: flat / binary-flat / GPU-IVF index nodes and thread utilities

    A shallow embedding of

    - [src/index/flat/flat.cc]        ([FlatIndexNode<T>], T one of
                                      [faiss::IndexFlat], [faiss::IndexBinaryFlat]),
    - the GPU IVF node                ([GpuIvfIndexNode<T>]),
    - [knowhere/common/Utils.cpp]     ([GetThreadNum]),

    together with the properties their specification states about them.

    Conventions.
    - C++ integers are [Z]; sizes ([size_t], vector lengths) are [nat].
    - [float] is an IEEE-754 binary32 value, represented by [spec_float];
      comparisons are the IEEE ones ([SFeqb], [SFltb], [SFleb]).
    - A raw owning pointer is an [option loc] into a store of live backend
      instances; [None] is [nullptr].
    - Every member function returns an [exec]: a defined result, an exception
      that leaves the function, or undefined behaviour. *)

From Stdlib Require Import ZArith List Lia Bool Ascii String SpecFloat.
From stdpp Require Import base option list gmap strings pretty.

Local Open Scope Z_scope.

(** ** Outcomes of a C++ call *)

(** [std::exception::what()].  Every exception thrown in these files (by the
    numeric backend or by [KNOWHERE_THROW_MSG]) derives from [std::exception]. *)
Definition exn : Type := string.

Inductive exec (A : Type) : Type :=
| Returns (a : A)          (* the call returns [a] *)
| Throws (e : exn)         (* an exception propagates to the caller *)
| Undef.                   (* null / dangling dereference, out-of-bounds access *)
Arguments Returns {A} a.
Arguments Throws {A} e.
Arguments Undef {A}.

#[global] Instance exec_ret : MRet exec := fun A a => Returns a.
#[global] Instance exec_bind : MBind exec := fun A B f m =>
  match m with
  | Returns a => f a
  | Throws e => Throws e
  | Undef => Undef
  end.

(** ** Status codes and [expected<T, Status>] *)

Inductive Status : Type :=
| success
| invalid_metric_type
| empty_index
| not_implemented
| index_not_trained
| index_already_trained
| faiss_inner_error
| malloc_error.

Inductive expected (A : Type) : Type :=
| value (a : A)
| unexpected (s : Status).
Arguments value {A} a.
Arguments unexpected {A} s.

(** ** Scalars *)

Definition float : Type := spec_float.

(** C++ [a != b] on floats: false exactly when the two compare equal, hence
    true whenever one side is a NaN. *)
Definition float_ne (a b : float) : bool := negb (SFeqb a b).

(** [static_cast<float>(int32_t)]: round to nearest even into binary32. *)
Definition float_of_int32 (z : Z) : float := binary_normalize 24 128 z 0 false.

Definition INT_MAX : Z := 2147483647.

(** ** The numeric backend (faiss) *)

(** The template parameter [T] of [FlatIndexNode]. *)
Inductive IndexKind : Type := IndexFlat | IndexBinaryFlat.

(** [faiss::MetricType]; the two enumerators the nodes test for are named,
    the remaining ones are kept by their numeric code. *)
Inductive MetricType : Type :=
| METRIC_INNER_PRODUCT
| METRIC_Hamming
| METRIC_other (code : Z).

Definition MetricType_eqb (a b : MetricType) : bool :=
  match a, b with
  | METRIC_INNER_PRODUCT, METRIC_INNER_PRODUCT => true
  | METRIC_Hamming, METRIC_Hamming => true
  | METRIC_other x, METRIC_other y => x =? y
  | _, _ => false
  end.

(** One neighbour: label and distance. The backend writes labels and distances
    into two parallel arrays of equal length; a list of pairs keeps them
    aligned. *)
Abbreviation hit D := (Z * D)%type.

(** The operations of the backend that the nodes call.  Their numerics are out
    of scope; only the shape of the interface is fixed here.

    - [Index] is a backend instance ([faiss::Index] / [faiss::IndexBinary]).
    - A tensor is a [list Z]: one entry per element of the variant's element
      type ([float] for [IndexFlat], [uint8_t] for [IndexBinaryFlat]).
    - [index_search] / [index_search_binary] stand for [search] called with
      [n = 1]: they fill the [k] cells of the two output arrays, or throw.
    - [index_range_search] fills a [RangeSearchResult] for one query, or
      throws.
    - [write_index] / [read_index] also stand for the [_binary] pair. *)
Class Faiss : Type := {
  Index : Type;
  Bitset : Type;
  index_d : Index -> Z;
  index_ntotal : Index -> Z;
  index_metric_type : Index -> MetricType;
  index_is_trained : Index -> bool;
  index_new : IndexKind -> Z -> MetricType -> Index;
  index_add : Z -> list Z -> Index -> exn + Index;
  index_search : Index -> list Z -> Z -> Bitset -> exn + list (hit float);
  index_search_binary : Index -> list Z -> Z -> Bitset -> exn + list (hit Z);
  index_range_search : Index -> list Z -> float -> Bitset -> exn + list (hit float);
  write_index : Index -> exn + list Z;
  read_index : list Z -> exn + Index;
  Str2FaissMetricType : string -> expected MetricType
}.

(** What the nodes rely on from the backend, by concern. *)

(** Construction and growth of an instance. *)
Class StorageContract (F : Faiss) : Prop := {
  (* a freshly constructed index holds no vectors *)
  ntotal_new : forall T d m, index_ntotal (index_new T d m) = 0;
  (* [add(n, x)] appends [n] vectors *)
  ntotal_add : forall n x ix ix',
      index_add n x ix = inr ix' -> index_ntotal ix' = index_ntotal ix + n;
  (* the error of an [expected] is an error *)
  metric_error : forall name, Str2FaissMetricType name <> unexpected success
}.

(** The search kernels: [search(1, q, k, D, I)] fills exactly the [k] cells of
    [D] and of [I]. *)
Class KernelContract (F : Faiss) : Prop := {
  search_fills : forall ix q k bs hs,
      index_search ix q k bs = inr hs -> Z.of_nat (length hs) = k;
  search_binary_fills : forall ix q k bs hs,
      index_search_binary ix q k bs = inr hs -> Z.of_nat (length hs) = k
}.

(** The codec: reading back what [write_index] wrote gives the index that was
    written. *)
Class CodecContract (F : Faiss) : Prop := {
  read_write_index : forall ix bytes,
      write_index ix = inr bytes -> read_index bytes = inr ix
}.

(** GPU side of the backend: device resources and host/device conversion. *)
Class FaissGpu (F : Faiss) : Type := {
  Res : Type;                                       (* a [ResPtr] of the resource manager *)
  index_cpu_to_gpu : Res -> Index -> exn + Index;
  index_gpu_to_cpu : Index -> exn + Index;
  (* [setNumProbes] where the instance is a [GpuIndexIVF], no change otherwise *)
  gpu_set_nprobe : Z -> Index -> Index;
  (* [search(n, x, k, D, I, bitset)] on [n] consecutive queries *)
  gpu_search : Index -> list Z -> Z -> Z -> Bitset -> exn + list (hit float);
  (* [add(n, x)] works in place: the instance it leaves behind when it throws *)
  index_add_failed : Z -> list Z -> Index -> Index
}.

(** [reconstruct(id, recons)]: the stored vector with label [id], written to
    [recons], or an exception. *)
Class FaissReconstruct (F : Faiss) : Type := {
  index_reconstruct : Index -> Z -> exn + list Z
}.

(** The template parameter [T] of [GpuIvfIndexNode]. *)
Inductive IvfKind : Type := IndexIVFFlat | IndexIVFPQ | IndexIVFScalarQuantizer.

(** The three constructor calls of [GpuIvfIndexNode::Train], with the
    arguments that vary ([QT_8bit] and [true] are fixed in the third). *)
Inductive gpu_ctor : Type :=
| GpuIndexIVFFlat (dim nlist : Z) (metric : MetricType)
| GpuIndexIVFPQ (dim nlist m nbits : Z) (metric : MetricType)
| GpuIndexIVFScalarQuantizer (dim nlist : Z) (metric : MetricType).

(** Construction on a device resource, and [train(n, x)]. *)
Class FaissGpuTrain (F : Faiss) (G : FaissGpu F) : Type := {
  gpu_index_new : Res -> gpu_ctor -> exn + Index;
  index_train : Z -> list Z -> Index -> exn + Index
}.

(** What [Train] and [Build] of the GPU node rely on. *)
Class GpuTrainContract (F : Faiss) (G : FaissGpu F) (GT : FaissGpuTrain F G) : Prop := {
  (* a freshly constructed index holds no vectors *)
  gpu_new_empty : forall res c ix, gpu_index_new res c = inr ix -> index_ntotal ix = 0;
  (* [train] marks the index trained and adds no vector *)
  train_trained : forall n x ix ix',
      index_train n x ix = inr ix' ->
      index_is_trained ix' = true /\ index_ntotal ix' = index_ntotal ix;
  (* [add] leaves the trained flag alone *)
  add_keeps_trained : forall n x ix ix',
      index_add n x ix = inr ix' -> index_is_trained ix' = index_is_trained ix
}.

(** The GPU search kernel fills [n * k] cells of each output array. *)
Class GpuKernelContract (F : Faiss) (G : FaissGpu F) : Prop := {
  gpu_search_fills : forall ix q n k bs hs,
      gpu_search ix q n k bs = inr hs -> Z.of_nat (length hs) = n * k
}.

(** An [add] that throws leaves the trained flag alone, whatever else it has
    done to the instance. *)
Class GpuAddFailureContract (F : Faiss) (G : FaissGpu F) : Prop := {
  add_failed_keeps_trained : forall n x ix,
      index_is_trained (index_add_failed n x ix) = index_is_trained ix
}.

(** Copying an instance between host and device keeps its dimension and the
    number of vectors it holds. *)
Class TransferContract (F : Faiss) (G : FaissGpu F) : Prop := {
  to_cpu_keeps : forall ix host,
      index_gpu_to_cpu ix = inr host ->
      index_ntotal host = index_ntotal ix /\ index_d host = index_d ix;
  to_gpu_keeps : forall res host ix,
      index_cpu_to_gpu res host = inr ix ->
      index_ntotal ix = index_ntotal host /\ index_d ix = index_d host
}.

(** ** Range utilities ([common/range_util.h]) *)

(** The two items of [common/range_util.h] whose value the specification
    leaves open: the sentinel that disables the band filter, and the band
    predicate itself ([distance_in_band is_similarity radius band_filter d]
    tells whether distance [d] lies in the band; the specification declares
    the boundary behaviour an open point, so it stays a parameter). *)
Class RangeUtil : Type := {
  defaultRangeFilter : float;
  distance_in_band : bool -> float -> float -> float -> bool
}.

(** Modelled from the spec: [FilterRangeSearchResultForOneNq] is declared in
    [common/range_util.h] and not defined in the sources.  Section 4.3: for one
    query row, "drop any hit whose distance falls outside the half-open
    interval determined by radius and band_filter", the comparison direction
    being selected by [is_ip]; the surviving hits keep their order. *)
Definition FilterRangeSearchResultForOneNq `{RangeUtil}
    (hits : list (hit float)) (is_ip : bool) (radius range_filter : float)
  : list (hit float) :=
  filter (fun h => distance_in_band is_ip radius range_filter h.2 = true) hits.

(** Modelled from the spec: section 4.3, "offsets[i] = sum of surviving counts
    for rows < i, offsets[n] = total surviving count". *)
Definition offsets {A} (per_row : list (list A)) : list nat :=
  map (fun i => sum_list (length <$> take i per_row))
      (seq 0 (S (length per_row))).

(** Modelled from the spec: [GetRangeSearchResult] is declared in
    [common/range_util.h] and not defined in the sources.  Section 4.3: "After
    filtering, concatenate all surviving per-row lists in row order into one
    id buffer and one distance buffer, and compute [the offsets]".  The result
    is (distances, ids, lims), in the order of the three out-parameters. *)
Definition GetRangeSearchResult
    (result : list (list (hit float))) (is_ip : bool) (nq : Z)
    (radius range_filter : float)
  : list float * list Z * list nat :=
  (snd <$> concat result, fst <$> concat result, offsets result).

(** ** Datasets, configuration, blobs *)

(** The input view of a [DataSet]: row count, dimension and the row-major
    tensor it points to. *)
Record DataSet : Type := {
  GetRows : Z;
  GetDim : Z;
  GetTensor : list Z;
  GetIds : list Z
}.

(** One 4-byte cell of a [float] output array.  The binary variant lets the
    backend store [int32_t] distances through the same cells
    ([reinterpret_cast<int32_t*>(cur_dis)]); the tag records the type of the
    last store. *)
Inductive cell32 : Type :=
| F32 (f : float)
| I32 (z : Z).

(** What [GenResultDataSet] packs.  A top-k result owns the two output arrays
    ([None] is a cell that was allocated and never written); a range result
    owns the flattened ids, distances and [lims]. *)
Inductive ResultSet : Type :=
| TopK (nq k : Z) (ids : list (option Z)) (dis : list (option cell32))
| Range (nq : Z) (ids : list Z) (distances : list float) (lims : list nat).

(** The fields of [FlatConfig] the node reads.  [FlatConfig] is declared in
    [index/flat/flat_config.h], which is not among the sources: the integer
    type of [k] is not known here, and products with [k] are taken in [Z]. *)
Record FlatConfig : Type := {
  metric_type : string;
  k : Z;
  radius : float;
  range_filter : float
}.

(** A named blob: its buffer and its declared size. *)
Record Binary : Type := { data : list Z; size : Z }.

(** Modelled from the spec: the blob container ([BinarySet]) is not among the
    sources.  Section 6: "append(name: string, bytes, length)",
    "get_by_name(name) -> bytes".  What [GetByName] returns for an absent name
    is not specified; the lookup is [None] there and the callers dereference
    it unchecked. *)
Definition Append (name : string) (bytes : list Z) (len : Z)
    (binset : gmap string Binary) : gmap string Binary :=
  <[name := {| data := bytes; size := len |}]> binset.

Definition GetByName (name : string) (binset : gmap string Binary) : option Binary :=
  binset !! name.

(** [MemoryIOReader] with [total = binary->size], [data_ = binary->data]: the
    bytes a reader can consume. *)
Definition reader_bytes (b : Binary) : list Z := take (Z.to_nat (size b)) (data b).

(** ** The store of live backend instances *)

Definition loc : Type := positive.

Section WithBackend.
Context {F : Faiss}.

(** [*p] for an owning pointer [p]. *)
Definition deref (σ : gmap loc Index) (p : option loc) : exec Index :=
  match p with
  | None => Undef
  | Some l => match σ !! l with Some ix => Returns ix | None => Undef end
  end.

(** [delete p] for a non-null [p]. *)
Definition delete_index (σ : gmap loc Index) (l : loc) : exec (gmap loc Index) :=
  match σ !! l with
  | Some _ => Returns (delete l σ)
  | None => Undef
  end.

(** Elements one vector occupies in a tensor: [d] floats, or [d / 8] bytes for
    binary codes ([nq * dim / 8] in [GetVectorByIds]). *)
Definition row_elems (T : IndexKind) (d : Z) : Z :=
  match T with
  | IndexFlat => d
  | IndexBinaryFlat => d / 8
  end.

(** The [n] elements at [x + off]; reading outside the tensor is undefined. *)
Definition read_span (x : list Z) (off n : Z) : exec (list Z) :=
  if (0 <=? off) && (0 <=? n) && (off + n <=? Z.of_nat (length x))
  then Returns (take (Z.to_nat n) (drop (Z.to_nat off) x))
  else Undef.

(** Row [i] of a dataset of [T]-vectors of dimension [d]. *)
Definition query_row (T : IndexKind) (x : list Z) (d : Z) (i : nat) : exec (list Z) :=
  read_span x (Z.of_nat i * row_elems T d) (row_elems T d).

End WithBackend.

(** ** [FlatIndexNode<T>] *)

Module Flat.
Section Node.
Context {F : Faiss} {R : RangeUtil}.
Variable T : IndexKind.

(** The node owns at most one backend instance ([pool_] is the process-wide
    thread pool and carries no state of the node). *)
Record FlatIndexNode : Type := { index_ : option loc }.

Definition Train (ds : DataSet) (cfg : FlatConfig) : Status := success.

(** [nomem] tells whether [new (std::nothrow)] returns [nullptr] in this call.
    An exception of [index_->add] is not caught and leaves [Add]. *)
Definition Add (nomem : bool) (σ : gmap loc Index) (node : FlatIndexNode)
    (ds : DataSet) (cfg : FlatConfig)
  : exec (Status * gmap loc Index * FlatIndexNode) :=
  match Str2FaissMetricType (metric_type cfg) with
  | unexpected e => mret (e, σ, node)
  | value metric =>
    if nomem then mret (malloc_error, σ, node)
    else
      let index := fresh (dom σ) in
      let fresh_ix := index_new T (GetDim ds) metric in
      σ1 ← match index_ node with
            | Some old => delete_index σ old
            | None => mret σ
            end;
      match index_add (GetRows ds) (GetTensor ds) fresh_ix with
      | inl e => Throws e
      | inr ix => mret (success, <[index := ix]> σ1, {| index_ := Some index |})
      end
  end.

Definition Build (nomem : bool) (σ : gmap loc Index) (node : FlatIndexNode)
    (ds : DataSet) (cfg : FlatConfig)
  : exec (Status * gmap loc Index * FlatIndexNode) :=
  match Train ds cfg with
  | success => Add nomem σ node ds cfg
  | err => mret (err, σ, node)
  end.

Definition Dim (σ : gmap loc Index) (node : FlatIndexNode) : exec Z :=
  ix ← deref σ (index_ node); mret (index_d ix).

Definition Count (σ : gmap loc Index) (node : FlatIndexNode) : exec Z :=
  ix ← deref σ (index_ node); mret (index_ntotal ix).

(** *** Search *)

(** The two output arrays [ids] and [dis]. *)
Record buffers : Type := {
  ids : list (option Z);
  dis : list (option cell32)
}.

(** [new int64_t[len]], [new float[len]]. *)
Definition fresh_buffers (len : Z) : buffers :=
  {| ids := replicate (Z.to_nat len) None; dis := replicate (Z.to_nat len) None |}.

(** What the task of row [index] computes: the [k] (label, distance) pairs
    the backend stores at [cur_ids] and [cur_dis], after the integer
    distances of a Hamming search were converted in place.  The query
    operand starts at [x + index * Dim()] for both variants. *)
Definition search_task (ix : Index) (x : list Z) (k : Z) (bitset : Bitset)
    (index : nat) : exec (exn + list (hit cell32)) :=
  q ← read_span x (Z.of_nat index * index_d ix) (row_elems T (index_d ix));
  mret match T with
       | IndexFlat =>
           match index_search ix q k bitset with
           | inl e => inl e
           | inr hs => inr (prod_map id F32 <$> hs)
           end
       | IndexBinaryFlat =>
           match index_search_binary ix q k bitset with
           | inl e => inl e
           | inr hs =>
               inr (if MetricType_eqb (index_metric_type ix) METRIC_Hamming
                    then prod_map id (fun z => F32 (float_of_int32 z)) <$> hs
                    else prod_map id I32 <$> hs)
           end
       end.

(** The stores of a finished task: its pairs go to the cells starting at
    [ids + k * index] and [dis + k * index]; a task that threw stores
    nothing that is ever read (the arrays are freed on that path). *)
Definition write_slot (k : Z) (index : nat) (out : exn + list (hit cell32))
    (b : buffers) : buffers :=
  match out with
  | inl _ => b
  | inr hs =>
      let off := Z.to_nat (k * Z.of_nat index) in
      {| ids := list_inserts off (Some <$> hs.*1) (ids b);
         dis := list_inserts off (Some <$> hs.*2) (dis b) |}
  end.

(** The arrays after the tasks listed in [sched] have completed, in that
    order ([outs] holds the outcome of every task by row). *)
Fixpoint run_tasks (k : Z) (outs : list (exn + list (hit cell32)))
    (sched : list nat) (b : buffers) : buffers :=
  match sched with
  | [] => b
  | i :: rest =>
      run_tasks k outs rest
        (match outs !! i with Some out => write_slot k i out b | None => b end)
  end.

Definition raised {A} (out : exn + A) : bool :=
  match out with inl _ => true | inr _ => false end.

Definition stores_nothing (out : exn + list (hit cell32)) : bool :=
  match out with inl _ => true | inr hs => bool_decide (hs = []) end.

Definition Search (nomem : bool) (σ : gmap loc Index) (node : FlatIndexNode)
    (ds : DataSet) (cfg : FlatConfig) (bitset : Bitset)
  : exec (expected ResultSet) :=
  match index_ node with
  | None => mret (unexpected empty_index)
  | Some _ =>
    ix ← deref σ (index_ node);
    let nq := GetRows ds in
    let len := k cfg * nq in
    (* [futs.reserve(nq)] throws [std::length_error] for a negative [nq] *)
    if nq <? 0 then mret (unexpected faiss_inner_error)
    (* the loop counter is an [int]: [++i] overflows before it reaches [nq];
       that the containers above may throw for such a count is not followed *)
    else if INT_MAX <? nq then Undef
    else
      outs ← mapM (search_task ix (GetTensor ds) (k cfg) bitset) (seq 0 (Z.to_nat nq));
      (* the arrays are not checked against [nullptr] before the tasks store *)
      if nomem && negb (forallb stores_nothing outs) then Undef
      else if existsb raised outs then mret (unexpected faiss_inner_error)
      else
        let b := run_tasks (k cfg) outs (seq 0 (Z.to_nat nq))
                   (if nomem then fresh_buffers 0 else fresh_buffers len) in
        mret (value (TopK nq (k cfg) (ids b) (dis b)))
  end.

(** *** Range search *)

(** [is_ip] as [RangeSearch] computes it. *)
Definition is_ip (ix : Index) : bool :=
  MetricType_eqb (index_metric_type ix) METRIC_INNER_PRODUCT
  && match T with IndexFlat => true | IndexBinaryFlat => false end.

(** What the task of row [index] leaves in [result_dist_array[index]] and
    [result_id_array[index]] (one list of pairs), or the exception it
    raised. *)
Definition range_task (ix : Index) (x : list Z) (cfg : FlatConfig)
    (bitset : Bitset) (index : nat) : exec (exn + list (hit float)) :=
  q ← read_span x (Z.of_nat index * index_d ix) (row_elems T (index_d ix));
  mret match index_range_search ix q (radius cfg) bitset with
       | inl e => inl e
       | inr res =>
           inr (if float_ne (range_filter cfg) defaultRangeFilter
                then FilterRangeSearchResultForOneNq res (is_ip ix)
                       (radius cfg) (range_filter cfg)
                else res)
       end.

(** The rows of the tasks that did not raise, in row order. *)
Definition finished {A} (outs : list (exn + A)) : list A :=
  omap (fun out => match out with inl _ => None | inr a => Some a end) outs.

Definition RangeSearch (σ : gmap loc Index) (node : FlatIndexNode)
    (ds : DataSet) (cfg : FlatConfig) (bitset : Bitset)
  : exec (expected ResultSet) :=
  match index_ node with
  | None => mret (unexpected empty_index)
  | Some _ =>
    ix ← deref σ (index_ node);
    let nq := GetRows ds in
    (* [std::vector<...> result_id_array(nq)] throws for a negative [nq] *)
    if nq <? 0 then mret (unexpected faiss_inner_error)
    (* the loop counter is an [int]: [++i] overflows before it reaches [nq];
       that the containers above may throw for such a count is not followed *)
    else if INT_MAX <? nq then Undef
    else
      outs ← mapM (range_task ix (GetTensor ds) cfg bitset) (seq 0 (Z.to_nat nq));
      if existsb raised outs then mret (unexpected faiss_inner_error)
      else
        let '(distances, ids, lims) :=
          GetRangeSearchResult (finished outs) (is_ip ix) nq
            (radius cfg) (range_filter cfg) in
        mret (value (Range nq ids distances lims))
  end.

(** *** Metadata and (de)serialization *)

(** A [const] member function: the node it is called on is handed back as it
    was. *)
Definition GetIndexMeta (σ : gmap loc Index) (node : FlatIndexNode)
    (cfg : FlatConfig)
  : exec (expected ResultSet) * gmap loc Index * FlatIndexNode :=
  (mret (unexpected not_implemented), σ, node).

(** The blob name of the variant. *)
Definition blob_name : string :=
  match T with
  | IndexFlat => "FLAT"
  | IndexBinaryFlat => "BinaryIVF"
  end.

(** [write_index] / [write_index_binary] into a [MemoryIOWriter] ([writer.rp]
    is the number of bytes written), then [binset.Append]. *)
Definition Serialize (σ : gmap loc Index) (node : FlatIndexNode)
    (binset : gmap string Binary) : exec (Status * gmap string Binary) :=
  match index_ node with
  | None => mret (empty_index, binset)
  | Some _ =>
    ix ← deref σ (index_ node);
    match write_index ix with
    | inl e => mret (faiss_inner_error, binset)
    | inr bytes =>
        mret (success, Append blob_name bytes (Z.of_nat (length bytes)) binset)
    end
  end.

(** The previous instance is deleted first; the blob is then looked up and
    dereferenced unchecked, and [read_index] runs outside any [try]. *)
Definition Deserialize (σ : gmap loc Index) (node : FlatIndexNode)
    (binset : gmap string Binary)
  : exec (Status * gmap loc Index * FlatIndexNode) :=
  σ1 ← match index_ node with
        | Some old => delete_index σ old
        | None => mret σ
        end;
  match GetByName blob_name binset with
  | None => Undef
  | Some binary =>
      match read_index (reader_bytes binary) with
      | inl e => Throws e
      | inr ix =>
          let index := fresh (dom σ1) in
          mret (success, <[index := ix]> σ1, {| index_ := Some index |})
      end
  end.

(** *** Reconstruction and destruction *)

Context {RC : FaissReconstruct F}.

(** [recons + off] receives the vector [v]; [xq] is [None] when the array
    pointer is null.  Nothing is stored for an empty vector. *)
Definition store_at (off : Z) (v : list Z) (xq : option (list (option Z)))
  : exec (option (list (option Z))) :=
  match v, xq with
  | [], _ => mret xq
  | _, None => Undef
  | _, Some buf =>
      if (0 <=? off) && (off + Z.of_nat (length v) <=? Z.of_nat (length buf))
      then mret (Some (list_inserts (Z.to_nat off) (Some <$> v) buf))
      else Undef
  end.

(** [xq + i * dim], and [xq + i * dim / 8] for binary codes. *)
Definition recons_offset (i dim : Z) : Z :=
  match T with
  | IndexFlat => i * dim
  | IndexBinaryFlat => Z.quot (i * dim) 8
  end.

(** The loop [for (int64_t i = 0; i < nq; i++)] of [GetVectorByIds], stopped by
    the first exception. *)
Fixpoint reconstruct_rows (index : exec Index) (in_ids : list Z) (dim : Z)
    (rows : list nat) (xq : option (list (option Z)))
  : exec (exn + option (list (option Z))) :=
  match rows with
  | [] => mret (inr xq)
  | i :: rest =>
      match in_ids !! i with
      | None => Undef
      | Some id =>
          ix ← index;
          match index_reconstruct ix id with
          | inl e => mret (inl e)
          | inr v =>
              xq' ← store_at (recons_offset (Z.of_nat i) dim) v xq;
              reconstruct_rows index in_ids dim rest xq'
          end
      end
  end.

(** [GetVectorByIds] has no test of [index_]; the array comes from an
    unchecked [new (std::nothrow)] of [nq * dim] floats, or [nq * dim / 8]
    bytes, and is null for a negative size.  The result is the array handed
    to [GenResultDataSet]. *)
Definition GetVectorByIds (nomem : bool) (σ : gmap loc Index)
    (node : FlatIndexNode) (ds : DataSet) (cfg : FlatConfig)
  : exec (expected (option (list (option Z)))) :=
  let nq := GetRows ds in
  let dim := GetDim ds in
  let len := recons_offset nq dim in
  let xq := if nomem || (len <? 0) then None
            else Some (replicate (Z.to_nat len) None) in
  r ← reconstruct_rows (deref σ (index_ node)) (GetIds ds) dim
        (seq 0 (Z.to_nat nq)) xq;
  match r with
  | inl e => mret (unexpected faiss_inner_error)
  | inr xq' => mret (value xq')
  end.

(** [~FlatIndexNode]. *)
Definition destructor (σ : gmap loc Index) (node : FlatIndexNode)
  : exec (gmap loc Index) :=
  match index_ node with
  | Some l => delete_index σ l
  | None => mret σ
  end.

(** A call that changes the node, and a sequence of such calls on one node;
    the status of each call is dropped, the next call sees the node and the
    store the previous one left. *)
Inductive call : Type :=
| CallAdd (nomem : bool) (ds : DataSet) (cfg : FlatConfig)
| CallBuild (nomem : bool) (ds : DataSet) (cfg : FlatConfig)
| CallDeserialize (binset : gmap string Binary).

Definition do_call (c : call) (σ : gmap loc Index) (node : FlatIndexNode)
  : exec (Status * gmap loc Index * FlatIndexNode) :=
  match c with
  | CallAdd nomem ds cfg => Add nomem σ node ds cfg
  | CallBuild nomem ds cfg => Build nomem σ node ds cfg
  | CallDeserialize binset => Deserialize σ node binset
  end.

Fixpoint do_calls (cs : list call) (σ : gmap loc Index) (node : FlatIndexNode)
  : exec (gmap loc Index * FlatIndexNode) :=
  match cs with
  | [] => mret (σ, node)
  | c :: rest =>
      r ← do_call c σ node;
      do_calls rest r.1.2 r.2
  end.

(** The node owns at most one instance, on top of a base store [σ0]. *)
Definition owns (σ0 σ : gmap loc Index) (node : FlatIndexNode) : Prop :=
  (index_ node = None ∧ σ = σ0)
  ∨ ∃ l ix, index_ node = Some l ∧ σ0 !! l = None ∧ σ = <[l := ix]> σ0.

End Node.
End Flat.

(** ** [GpuIvfIndexNode<T>] *)

Module GpuIvf.
Section Node.
Context {F : Faiss} {G : FaissGpu F}.

(** [res_] is the (mutable, weak) handle of the leased device resource,
    [gpu_index_] the owned device-resident instance. *)
Record GpuIvfIndexNode : Type := {
  res_ : option Res;
  gpu_index_ : option loc
}.

(** The fields of the GPU IVF configurations that the modelled functions read. *)
Record GpuIvfConfig : Type := {
  metric_type : string;
  k : Z;
  nprobe : Z
}.

(** [gpu_index_->add] changes the instance in place; when it throws, the
    handler returns and the instance stays as [add] left it. *)
Definition Add (σ : gmap loc Index) (node : GpuIvfIndexNode)
    (ds : DataSet) (cfg : GpuIvfConfig)
  : exec (Status * gmap loc Index * GpuIvfIndexNode) :=
  match gpu_index_ node with
  | None => mret (empty_index, σ, node)
  | Some l =>
    ix ← deref σ (gpu_index_ node);
    if negb (index_is_trained ix) then mret (index_not_trained, σ, node)
    else
      match index_add (GetRows ds) (GetTensor ds) ix with
      | inl e =>
          mret (faiss_inner_error,
                <[l := index_add_failed (GetRows ds) (GetTensor ds) ix]> σ, node)
      | inr ix' => mret (success, <[l := ix']> σ, node)
      end
  end.

Definition block_size : Z := 2048.

(** The values [i] takes in [for (int i = 0; i < rows; i += block_size)]. *)
Definition block_starts (rows : Z) : list Z :=
  (fun b => Z.of_nat b * block_size) <$>
    seq 0 (Z.to_nat ((rows + block_size - 1) / block_size)).

(** The loop over the blocks, stopped by the first exception; [nomem] tells
    whether the unchecked output arrays are [nullptr]. *)
Fixpoint search_blocks (nomem : bool) (gpu_index : exec Index) (ds : DataSet)
    (k : Z) (bitset : Bitset) (starts : list Z)
    (ids : list (option Z)) (dis : list (option cell32))
  : exec (exn + list (option Z) * list (option cell32)) :=
  match starts with
  | [] => mret (inr (ids, dis))
  | i :: rest =>
      let rows := GetRows ds in
      let search_size := if rows - i >? block_size then block_size else rows - i in
      ix ← gpu_index;
      q ← read_span (GetTensor ds) (i * GetDim ds) (search_size * GetDim ds);
      match gpu_search ix q search_size k bitset with
      | inl e => mret (inl e)
      | inr hs =>
          if nomem && negb (bool_decide (hs = [])) then Undef
          else
            let off := Z.to_nat (i * k) in
            search_blocks nomem gpu_index ds k bitset rest
              (list_inserts off (Some <$> hs.*1) ids)
              (list_inserts off (Some ∘ F32 <$> hs.*2) dis)
      end
  end.

(** [Search] sets the probe count on the instance it points to, when there is
    one, and then searches block by block; [gpu_index_] is not tested
    before [gpu_index_->search]. *)
Definition Search (nomem : bool) (σ : gmap loc Index) (node : GpuIvfIndexNode)
    (ds : DataSet) (cfg : GpuIvfConfig) (bitset : Bitset)
  : exec (expected ResultSet * gmap loc Index) :=
  let σ1 := match gpu_index_ node with
            | Some l => alter (gpu_set_nprobe (nprobe cfg)) l σ
            | None => σ
            end in
  let rows := GetRows ds in
  let len := Z.to_nat (if nomem then 0 else rows * k cfg) in
  (* the loop counter is an [int]: the last [i += block_size] overflows *)
  if INT_MAX - block_size + 1 <? rows then Undef
  else
    r ← search_blocks nomem (deref σ1 (gpu_index_ node)) ds (k cfg) bitset
          (block_starts rows) (replicate len None) (replicate len None);
    match r with
    | inl e => mret (unexpected faiss_inner_error, σ1)
    | inr (ids, dis) => mret (value (TopK rows (k cfg) ids dis), σ1)
    end.

Definition RangeSearch (σ : gmap loc Index) (node : GpuIvfIndexNode)
    (ds : DataSet) (cfg : GpuIvfConfig) (bitset : Bitset)
  : exec (expected ResultSet) * gmap loc Index * GpuIvfIndexNode :=
  (mret (unexpected not_implemented), σ, node).

Definition GetVectorByIds (σ : gmap loc Index) (node : GpuIvfIndexNode)
    (ds : DataSet) (cfg : GpuIvfConfig)
  : exec (expected ResultSet) * gmap loc Index * GpuIvfIndexNode :=
  (mret (unexpected not_implemented), σ, node).

Definition GetIndexMeta (σ : gmap loc Index) (node : GpuIvfIndexNode)
    (cfg : GpuIvfConfig)
  : exec (expected ResultSet) * gmap loc Index * GpuIvfIndexNode :=
  (mret (unexpected not_implemented), σ, node).

(** The host copy made by [index_gpu_to_cpu] is written and deleted again. *)
Definition Serialize (σ : gmap loc Index) (node : GpuIvfIndexNode)
    (binset : gmap string Binary) : exec (Status * gmap string Binary) :=
  match gpu_index_ node with
  | None => mret (empty_index, binset)
  | Some _ =>
    ix ← deref σ (gpu_index_ node);
    if negb (index_is_trained ix) then mret (index_not_trained, binset)
    else
      match index_gpu_to_cpu ix with
      | inl e => mret (faiss_inner_error, binset)
      | inr host_index =>
          match write_index host_index with
          | inl e => mret (faiss_inner_error, binset)
          | inr bytes =>
              mret (success, Append "IVF" bytes (Z.of_nat (length bytes)) binset)
          end
      end
  end.

(** [gpu_res] is what [GPUResMgr::GetInstance().GetRes()] hands out in this
    call.  The host index read from the blob lives in a [unique_ptr] and is
    gone on return; the device index made from it is assigned to
    [gpu_index_]. *)
Definition Deserialize (gpu_res : option Res) (σ : gmap loc Index)
    (node : GpuIvfIndexNode) (binset : gmap string Binary)
  : exec (Status * gmap loc Index * GpuIvfIndexNode) :=
  match GetByName "IVF" binset with
  | None => Undef
  | Some binary =>
      match read_index (reader_bytes binary) with
      | inl e => mret (faiss_inner_error, σ, node)
      | inr index =>
          match gpu_res with
          | None => Undef
          | Some res =>
              match index_cpu_to_gpu res index with
              | inl e => mret (faiss_inner_error, σ, node)
              | inr gpu_index =>
                  let l := fresh (dom σ) in
                  mret (success, <[l := gpu_index]> σ,
                        {| res_ := Some res; gpu_index_ := Some l |})
              end
          end
      end
  end.

Definition Dim (σ : gmap loc Index) (node : GpuIvfIndexNode) : exec Z :=
  match gpu_index_ node with
  | Some _ => ix ← deref σ (gpu_index_ node); mret (index_d ix)
  | None => mret 0
  end.

Definition Count (σ : gmap loc Index) (node : GpuIvfIndexNode) : exec Z :=
  match gpu_index_ node with
  | Some _ => ix ← deref σ (gpu_index_ node); mret (index_ntotal ix)
  | None => mret 0
  end.

(** *** Training *)

Context {GT : FaissGpuTrain F G}.
Variable T : IvfKind.

(** The constructor call of the variant; [nlist], [m] and [nbits] are the
    further fields of the configuration that [Train] reads. *)
Definition ctor (dim nlist m nbits : Z) (metric : MetricType) : gpu_ctor :=
  match T with
  | IndexIVFFlat => GpuIndexIVFFlat dim nlist metric
  | IndexIVFPQ => GpuIndexIVFPQ dim nlist m nbits metric
  | IndexIVFScalarQuantizer => GpuIndexIVFScalarQuantizer dim nlist metric
  end.

(** [gpu_res] is what [GPUResMgr::GetInstance().GetRes()] hands out in this
    call.  The new index is deleted again when [train] throws; on success
    it is assigned to [gpu_index_], whatever [gpu_index_] pointed to. *)
Definition Train (gpu_res : option Res) (σ : gmap loc Index)
    (node : GpuIvfIndexNode) (ds : DataSet) (cfg : GpuIvfConfig)
    (nlist m nbits : Z)
  : exec (Status * gmap loc Index * GpuIvfIndexNode) :=
  trained ← match gpu_index_ node with
             | Some _ => ix ← deref σ (gpu_index_ node); mret (index_is_trained ix)
             | None => mret false
             end;
  if trained : bool then mret (index_already_trained, σ, node)
  else
    match Str2FaissMetricType (metric_type cfg) with
    | unexpected e => mret (e, σ, node)
    | value metric =>
        match gpu_res with
        | None => Undef
        | Some res =>
            match gpu_index_new res (ctor (GetDim ds) nlist m nbits metric) with
            | inl e => mret (faiss_inner_error, σ, node)
            | inr gpu_index =>
                match index_train (GetRows ds) (GetTensor ds) gpu_index with
                | inl e => mret (faiss_inner_error, σ, node)
                | inr trained_index =>
                    let l := fresh (dom σ) in
                    mret (success, <[l := trained_index]> σ,
                          {| res_ := Some res; gpu_index_ := Some l |})
                end
            end
        end
    end.

Definition Build (gpu_res : option Res) (σ : gmap loc Index)
    (node : GpuIvfIndexNode) (ds : DataSet) (cfg : GpuIvfConfig)
    (nlist m nbits : Z)
  : exec (Status * gmap loc Index * GpuIvfIndexNode) :=
  r ← Train gpu_res σ node ds cfg nlist m nbits;
  match r.1.1 with
  | success => Add r.1.2 r.2 ds cfg
  | _ => mret r
  end.

(** [~GpuIvfIndexNode]. *)
Definition destructor (σ : gmap loc Index) (node : GpuIvfIndexNode)
  : exec (gmap loc Index) :=
  match gpu_index_ node with
  | Some l => delete_index σ l
  | None => mret σ
  end.

(** A call that changes the node. *)
Inductive call : Type :=
| CallTrain (gpu_res : option Res) (ds : DataSet) (cfg : GpuIvfConfig)
    (nlist m nbits : Z)
| CallBuild (gpu_res : option Res) (ds : DataSet) (cfg : GpuIvfConfig)
    (nlist m nbits : Z)
| CallAdd (ds : DataSet) (cfg : GpuIvfConfig)
| CallDeserialize (gpu_res : option Res) (binset : gmap string Binary).

Definition do_call (c : call) (σ : gmap loc Index) (node : GpuIvfIndexNode)
  : exec (Status * gmap loc Index * GpuIvfIndexNode) :=
  match c with
  | CallTrain gpu_res ds cfg nlist m nbits =>
      Train gpu_res σ node ds cfg nlist m nbits
  | CallBuild gpu_res ds cfg nlist m nbits =>
      Build gpu_res σ node ds cfg nlist m nbits
  | CallAdd ds cfg => Add σ node ds cfg
  | CallDeserialize gpu_res binset => Deserialize gpu_res σ node binset
  end.

End Node.
End GpuIvf.

(** ** Joining the per-row tasks *)

(** [Search] and [RangeSearch] push one task per row and then run

      [for (auto& fut : futs) { fut.get(); }]

    inside [try { ... } catch (const std::exception&) { return
    unexpected(Status::faiss_inner_error); }].  [fut.get()] blocks until its
    task has completed and rethrows what the task threw; nothing else in the
    two functions waits for a task.  The machine below tracks which tasks
    have completed while the caller walks through the futures. *)
Module Executor.

Record state : Type := {
  completed : list bool;     (* per task: has it run to its end *)
  joined : nat;              (* futures whose [get()] has returned *)
  returned : option Status   (* the caller has left the loop, with this status *)
}.

Inductive event : Type :=
| Complete (i : nat)         (* a worker runs task [i] to its end *)
| Get.                       (* the caller's next step in the loop *)

Definition init (n : nat) : state :=
  {| completed := replicate n false; joined := 0; returned := None |}.

(** [outs !! i] is what task [i] ends with: [None] when it returns, [Some e]
    when it throws [e]. *)
Definition step (outs : list (option exn)) (st : state) (ev : event) : state :=
  match ev with
  | Complete i =>
      {| completed := <[i := true]> (completed st);
         joined := joined st; returned := returned st |}
  | Get =>
      match returned st with
      | Some _ => st
      | None =>
          match outs !! joined st, completed st !! joined st with
          | None, _ =>                      (* past the last future *)
              {| completed := completed st; joined := joined st;
                 returned := Some success |}
          | Some _, (None | Some false) => st   (* [get()] blocks *)
          | Some None, Some true =>
              {| completed := completed st; joined := S (joined st);
                 returned := None |}
          | Some (Some e), Some true =>     (* rethrown, caught by the handler *)
              {| completed := completed st; joined := joined st;
                 returned := Some faiss_inner_error |}
          end
      end
  end.

Definition run (outs : list (option exn)) (evs : list event) : state :=
  foldl (step outs) (init (length outs)) evs.

(** All tasks have run to their end. *)
Definition all_completed (st : state) : Prop :=
  Forall (fun b => b = true) (completed st).

(** What the future of a task delivers, from the outcome of the task. *)
Definition delivered {A} (out : exn + A) : option exn :=
  match out with inl e => Some e | inr _ => None end.

(** The events of a call in which all [n] tasks complete before the caller
    starts to collect them. *)
Definition drain (n : nat) : list event :=
  (Complete <$> seq 0 n) ++ replicate (S n) Get.

(** What holds of every state the machine reaches: the futures the caller has
    got past belong to completed tasks that did not throw, and a normal exit
    from the loop means that it got past all of them. *)
Record invariant (outs : list (option exn)) (st : state) : Prop := {
  inv_length : length (completed st) = length outs;
  inv_joined : ∀ j, (j < joined st)%nat -> completed st !! j = Some true ∧ outs !! j = Some None;
  inv_bound : (joined st <= length outs)%nat;
  inv_success : returned st = Some success -> joined st = length outs;
  inv_error : returned st = Some faiss_inner_error ->
              ∃ e, outs !! joined st = Some (Some e) ∧ completed st !! joined st = Some true;
  inv_status : ∀ s, returned st = Some s -> s = success ∨ s = faiss_inner_error
}.

End Executor.

(** ** [knowhere::utils::GetThreadNum] *)

Module Utils.

Definition MAX_THREAD_NUM : Z := 100000.
Definition MIN_THREAD_NUM : Z := 0.
Definition THREAD_LENGTH : nat := 7.

Definition NUL : ascii := "000"%char.
Definition newline : ascii := "010"%char.

(** The characters [fgets] stores before the terminator: at most [n] of them,
    up to and including the first newline. *)
Fixpoint fgets_chars (n : nat) (stream : list ascii) : list ascii :=
  match n, stream with
  | O, _ | _, [] => []
  | S n', c :: rest =>
      if Ascii.eqb c newline then [c] else c :: fgets_chars n' rest
  end.

(** [fgets(buf, size, stream)]: [None] is the null pointer it returns at end
    of file with nothing read. *)
Definition fgets (size : nat) (stream : list ascii) : option (list ascii) :=
  match fgets_chars (size - 1) stream with
  | [] => None
  | cs => Some cs
  end.

(** The C string held by a buffer: its characters before the first NUL. *)
Fixpoint c_str (buf : list ascii) : list ascii :=
  match buf with
  | [] => []
  | c :: rest => if Ascii.eqb c NUL then [] else c :: c_str rest
  end.

(** [if (len > 0 && fBuff[len - 1] == '\n') fBuff[len - 1] = '\0';] *)
Definition chomp (s : list ascii) : list ascii :=
  match last s with
  | Some c => if Ascii.eqb c newline then take (length s - 1) s else s
  | None => s
  end.

Definition isspace (c : ascii) : bool :=
  let n := nat_of_ascii c in
  (n =? 32)%nat || ((9 <=? n)%nat && (n <=? 13)%nat).

Definition digit (c : ascii) : option Z :=
  let n := nat_of_ascii c in
  if (48 <=? n)%nat && (n <=? 57)%nat then Some (Z.of_nat n - 48) else None.

Fixpoint skip_spaces (s : list ascii) : list ascii :=
  match s with
  | c :: rest => if isspace c then skip_spaces rest else s
  | [] => []
  end.

Fixpoint atoi_digits (acc : Z) (s : list ascii) : Z :=
  match s with
  | c :: rest =>
      match digit c with
      | Some d => atoi_digits (10 * acc + d) rest
      | None => acc
      end
  | [] => acc
  end.

(** [atoi]: leading white space, an optional sign, decimal digits. *)
Definition atoi (s : list ascii) : Z :=
  match skip_spaces s with
  | c :: rest =>
      if Ascii.eqb c "-" then - atoi_digits 0 rest
      else if Ascii.eqb c "+" then atoi_digits 0 rest
      else atoi_digits 0 (c :: rest)
  | [] => 0
  end.

(** [popen cmd] is the standard output of the shell command, or [None] when
    the pipe cannot be opened (the returned [FILE*] is not tested).  The two
    [std::cout] lines print and have no part in the result. *)
Definition GetThreadNum (popen : string -> option (list ascii)) (id : Z) : exec Z :=
  let cmd := ("ps -p " +:+ pretty id +:+ " -Tf | wc -l")%string in
  match popen cmd with
  | None => Undef
  | Some stream =>
      match fgets THREAD_LENGTH stream with
      | None => Throws "could not open the file to get thread number"
      | Some fBuff =>
          let ans := atoi (chomp (c_str fBuff)) in
          if (ans <? MIN_THREAD_NUM) || (ans >? MAX_THREAD_NUM)
          then Throws "thread number is out of control"
          else mret ans
      end
  end.

End Utils.

(** ** Notions used in the statements *)

(** The state [Empty]: no backend instance is held. *)
Definition flat_empty : Flat.FlatIndexNode := {| Flat.index_ := None |}.

Definition gpu_empty {F : Faiss} {G : FaissGpu F} : GpuIvf.GpuIvfIndexNode :=
  {| GpuIvf.res_ := None; GpuIvf.gpu_index_ := None |}.

(** Slot [i] of an output array of [n]-cell slots: cells [n * i .. n * i + n - 1]. *)
Definition slot {A} (n i : nat) (l : list A) : list A := take n (drop (n * i) l).


(** The first [n] cells of an output array have been written. *)
Definition written {A} (n : nat) (l : list (option A)) : Prop :=
  ∀ p, (p < n)%nat -> ∃ a, l !! p = Some (Some a).

(** The character of a decimal digit, and the number a digit string denotes. *)
Definition digit_char (d : Z) : ascii := ascii_of_nat (Z.to_nat (48 + d)).

Definition decimal (ds : list Z) : Z := foldl (fun acc d => 10 * acc + d) 0 ds.

(** [cfg] with the band filter switched off. *)
Definition disable_filter `{RangeUtil} (cfg : FlatConfig) : FlatConfig :=
  {| metric_type := metric_type cfg; k := k cfg; radius := radius cfg;
     range_filter := defaultRangeFilter |}.

(** How the outcome of a row's task under [cfg] relates to the outcome of the
    same task with the filter disabled. *)
Definition filtered_from `{RangeUtil} (ip : bool) (cfg : FlatConfig)
    (out out0 : exn + list (hit float)) : Prop :=
  match out, out0 with
  | inl _, inl _ => True
  | inr row, inr row0 =>
      row = FilterRangeSearchResultForOneNq row0 ip (radius cfg) (range_filter cfg)
  | _, _ => False
  end.

(** ** A small backend to run the nodes on *)

(** A backend with exhaustive one-coordinate kernels, used to evaluate the
    nodes on concrete inputs.  An instance keeps its kind, dimension, metric
    and the elements added so far. *)
Module Toy.

Record index : Type := {
  kind : IndexKind;
  d : Z;
  metric : MetricType;
  codes : list Z
}.

(** Bytes per stored vector / elements per vector. *)
Definition stride (ix : index) : Z :=
  match kind ix with IndexFlat => d ix | IndexBinaryFlat => d ix / 8 end.

Definition add (n : Z) (x : list Z) (ix : index) : exn + index :=
  if (0 <=? n) && (n * stride ix <=? Z.of_nat (length x)) && (0 <? stride ix)
  then inr {| kind := kind ix; d := d ix; metric := metric ix;
              codes := codes ix ++ take (Z.to_nat (n * stride ix)) x |}
  else inl "add: bad arguments"%string.

(** The first coordinate of the query. *)
Definition head (q : list Z) : Z := default 0 (q !! 0%nat).

(** [k] neighbours of a query: labels [0 .. k-1], distance to the query's
    first coordinate; a query starting with a negative coordinate is
    rejected. *)
Definition search_with {D} (dist : Z -> D) (q : list Z) (k : Z) : exn + list (hit D) :=
  if (k <? 0) || (head q <? 0) then inl "search: bad arguments"%string
  else inr ((fun j => (Z.of_nat j, dist (head q + Z.of_nat j))) <$> seq 0 (Z.to_nat k)).

(** The stored first coordinates within [radius] of the query's, excluded
    labels skipped. *)
Definition range_search (ix : index) (q : list Z) (radius : float)
    (bitset : list Z) : exn + list (hit float) :=
  if head q <? 0 then inl "range_search: bad arguments"%string
  else inr (omap (fun '(i, c) =>
                    let dist := float_of_int32 (Z.abs (c - head q)) in
                    if SFltb dist radius && negb (bool_decide (Z.of_nat i ∈ bitset))
                    then Some (Z.of_nat i, dist) else None)
                 (imap pair (codes ix))).

(** What an [add] that is rejected leaves behind: the vectors it found in
    the tensor are in the index already. *)
Definition add_failed (n : Z) (x : list Z) (ix : index) : index :=
  {| kind := kind ix; d := d ix; metric := metric ix;
     codes := codes ix ++ take (Z.to_nat (n * stride ix)) x |}.

Definition kind_code (T : IndexKind) : Z :=
  match T with IndexFlat => 0 | IndexBinaryFlat => 1 end.

Definition write (ix : index) : exn + list Z :=
  inr (kind_code (kind ix) :: d ix ::
       match metric ix with
       | METRIC_INNER_PRODUCT => [0; 0]
       | METRIC_Hamming => [1; 0]
       | METRIC_other c => [2; c]
       end ++ codes ix).

Definition read (bytes : list Z) : exn + index :=
  match bytes with
  | t :: dim :: m :: c :: rest =>
      if bool_decide (t = 0 ∨ t = 1) && (bool_decide (m = 2) || bool_decide (c = 0 ∧ (m = 0 ∨ m = 1)))
      then inr {| kind := if t =? 0 then IndexFlat else IndexBinaryFlat;
                  d := dim;
                  metric := if m =? 0 then METRIC_INNER_PRODUCT
                            else if m =? 1 then METRIC_Hamming else METRIC_other c;
                  codes := rest |}
      else inl "read_index: bad header"%string
  | _ => inl "read_index: truncated"%string
  end.

Definition metric_of (name : string) : expected MetricType :=
  if String.eqb name "IP" then value METRIC_INNER_PRODUCT
  else if String.eqb name "HAMMING" then value METRIC_Hamming
  else if String.eqb name "L2" then value (METRIC_other 1)
  else unexpected invalid_metric_type.

#[export] Instance faiss : Faiss := {|
  Index := index;
  Bitset := list Z;
  index_d := d;
  index_ntotal ix := Z.of_nat (length (codes ix)) / stride ix;
  index_metric_type := metric;
  index_is_trained _ := true;
  index_new T dim m := {| kind := T; d := dim; metric := m; codes := [] |};
  index_add := add;
  index_search _ q k _ := search_with float_of_int32 q k;
  index_search_binary _ q k _ := search_with id q k;
  index_range_search := range_search;
  write_index := write;
  read_index := read;
  Str2FaissMetricType := metric_of
|}.

#[export] Instance gpu : FaissGpu faiss := {|
  Res := nat;
  index_cpu_to_gpu _ ix := inr ix;
  index_gpu_to_cpu ix := inr ix;
  gpu_set_nprobe _ ix := ix;
  gpu_search _ q n k _ :=
    if (k <? 0) || (n <? 0) then inl "search: bad arguments"%string
    else inr ((fun j => (Z.of_nat j, float_of_int32 (head q + Z.of_nat j)))
                <$> seq 0 (Z.to_nat (n * k)));
  index_add_failed := add_failed
|}.

(** The band of the range filter, with the filter disabled at +infinity:
    similarity scores in [(radius, range_filter]], distances in
    [[range_filter, radius)]. *)
#[export] Instance range_util : RangeUtil := {|
  defaultRangeFilter := S754_infinity false;
  distance_in_band is_ip radius range_filter dist :=
    if is_ip then SFltb radius dist && SFleb dist range_filter
    else SFleb range_filter dist && SFltb dist radius
|}.

(** The stored vector with label [id]; labels outside the index are
    rejected. *)
Definition reconstruct (ix : index) (id : Z) : exn + list Z :=
  if (0 <=? id) && ((id + 1) * stride ix <=? Z.of_nat (length (codes ix)))
     && (0 <? stride ix)
  then inr (take (Z.to_nat (stride ix)) (drop (Z.to_nat (id * stride ix)) (codes ix)))
  else inl "reconstruct: bad id"%string.

#[export] Instance reconstructor : FaissReconstruct faiss := {|
  index_reconstruct := reconstruct
|}.

Definition ctor_dim (c : gpu_ctor) : Z :=
  match c with
  | GpuIndexIVFFlat dim _ _ | GpuIndexIVFPQ dim _ _ _ _
  | GpuIndexIVFScalarQuantizer dim _ _ => dim
  end.

Definition ctor_metric (c : gpu_ctor) : MetricType :=
  match c with
  | GpuIndexIVFFlat _ _ metric | GpuIndexIVFPQ _ _ _ _ metric
  | GpuIndexIVFScalarQuantizer _ _ metric => metric
  end.

(** Construction rejects a dimension below 1, training a negative row
    count. *)
#[export] Instance trainer : FaissGpuTrain faiss gpu := {|
  gpu_index_new _ c :=
    if ctor_dim c <? 1 then inl "GpuIndexIVF: bad dimension"%string
    else inr {| kind := IndexFlat; d := ctor_dim c; metric := ctor_metric c;
                codes := [] |};
  index_train n _ ix :=
    if n <? 0 then inl "train: bad arguments"%string else inr ix
|}.

End Toy.

(** ** Sample states and inputs *)

(** A flat node over the small backend holding three one-dimensional vectors,
    and a second dataset of two vectors. *)
Definition toy_cfg : FlatConfig :=
  {| metric_type := "L2"; k := 2;
     radius := float_of_int32 4; range_filter := float_of_int32 2 |}.

Definition toy_ds3 : DataSet :=
  {| GetRows := 3; GetDim := 1; GetTensor := [4; 6; 20]; GetIds := [] |}.

Definition toy_ds2 : DataSet :=
  {| GetRows := 2; GetDim := 1; GetTensor := [5; 9]; GetIds := [] |}.

Definition toy_index (rows : list Z) : Toy.index :=
  {| Toy.kind := IndexFlat; Toy.d := 1; Toy.metric := METRIC_other 1;
     Toy.codes := rows |}.

Definition toy_store : gmap loc Toy.index := {[ 1%positive := toy_index [4; 6; 20] ]}.

Definition toy_node : Flat.FlatIndexNode := {| Flat.index_ := Some 1%positive |}.

(** A GPU node that holds the three-vector instance, and a container with the
    blob of a one-vector index under the name the GPU node reads. *)
Definition toy_res : Res (FaissGpu := Toy.gpu) := 0%nat.

Definition toy_gpu_node : GpuIvf.GpuIvfIndexNode :=
  {| GpuIvf.res_ := Some toy_res; GpuIvf.gpu_index_ := Some 1%positive |}.

Definition toy_ivf_binset : gmap string Binary :=
  Append "IVF" [0; 1; 2; 1; 7] 5 ∅.

(** A binary-flat node over the small backend: Hamming metric, dimension 8
    (one byte per vector), two vectors; and two batches of one-byte queries. *)
Definition toy_bin_index : Toy.index :=
  {| Toy.kind := IndexBinaryFlat; Toy.d := 8; Toy.metric := METRIC_Hamming;
     Toy.codes := [3; 200] |}.

Definition toy_bin_store : gmap loc Toy.index := {[ 1%positive := toy_bin_index ]}.

Definition toy_bin_cfg : FlatConfig :=
  {| metric_type := "HAMMING"; k := 1;
     radius := float_of_int32 4; range_filter := float_of_int32 2 |}.

Definition toy_bin_ds2 : DataSet :=
  {| GetRows := 2; GetDim := 8; GetTensor := [10; 11]; GetIds := [] |}.

Definition toy_bin_ds9 (last : Z) : DataSet :=
  {| GetRows := 9; GetDim := 8;
     GetTensor := [10; 11; 12; 13; 14; 15; 16; 17; last]; GetIds := [] |}.

(** A batch of two one-byte queries for the binary node whose tensor has
    seven more bytes behind the two rows. *)
Definition toy_bin_ds2_padded : DataSet :=
  {| GetRows := 2; GetDim := 8;
     GetTensor := [10; 11; 12; 13; 14; 15; 16; 17; 18]; GetIds := [] |}.

(** Further inputs: a configuration with [k = 1] and one with [k = 0], a
    batch that shares the row 9 with [toy_ds2], a batch whose only row the
    small backend rejects, a dataset with a negative row count, one whose tensor
    is a row short, a request for the vectors 2 and 0, a sequence of calls on a flat node, and a
    configuration of the GPU node. *)
Definition toy_cfg1 : FlatConfig :=
  {| metric_type := "L2"; k := 1;
     radius := float_of_int32 4; range_filter := float_of_int32 2 |}.

Definition toy_cfg0 : FlatConfig :=
  {| metric_type := "L2"; k := 0;
     radius := float_of_int32 4; range_filter := float_of_int32 2 |}.

Definition toy_ds_shared : DataSet :=
  {| GetRows := 3; GetDim := 1; GetTensor := [9; 1; 2]; GetIds := [] |}.

Definition toy_ds_rejected : DataSet :=
  {| GetRows := 1; GetDim := 1; GetTensor := [-1]; GetIds := [] |}.

Definition toy_ds_negative : DataSet :=
  {| GetRows := -1; GetDim := 1; GetTensor := []; GetIds := [] |}.

Definition toy_ds_short : DataSet :=
  {| GetRows := 3; GetDim := 1; GetTensor := [4; 6]; GetIds := [] |}.

Definition toy_ids_ds : DataSet :=
  {| GetRows := 2; GetDim := 1; GetTensor := []; GetIds := [2; 0] |}.

Definition toy_calls : list Flat.call :=
  [Flat.CallBuild false toy_ds3 toy_cfg;
   Flat.CallAdd false toy_ds2 toy_cfg;
   Flat.CallDeserialize (Append "FLAT" [0; 1; 2; 1; 7] 5 ∅)].

Definition toy_gpu_cfg : GpuIvf.GpuIvfConfig :=
  {| GpuIvf.metric_type := "L2"; GpuIvf.k := 2; GpuIvf.nprobe := 1 |}.

(** * Properties *)

(** ** The thread-count helper *)

Module UtilsFacts.
Import Utils.

Lemma digit_range c v : digit c = Some v -> 0 <= v <= 9.
Proof.
  unfold digit. case_match eqn:Hc; [|done].
  intros [= <-]. apply andb_prop in Hc as [H1%Nat.leb_le H2%Nat.leb_le]. lia.
Qed.

Lemma atoi_digits_bounds s : forall acc,
  0 <= acc -> 0 <= atoi_digits acc s <= (acc + 1) * 10 ^ Z.of_nat (length s) - 1.
Proof.
  induction s as [|c s IH]; intros acc Hacc; simpl atoi_digits.
  - simpl. lia.
  - assert (Hpow : 0 < 10 ^ Z.of_nat (length s)) by (apply Z.pow_pos_nonneg; lia).
    replace (Z.of_nat (length (c :: s))) with (Z.succ (Z.of_nat (length s)))
      by (simpl length; lia).
    rewrite Z.pow_succ_r by lia.
    destruct (digit c) as [v|] eqn:Hd.
    + apply digit_range in Hd. specialize (IH (10 * acc + v) ltac:(lia)). nia.
    + nia.
Qed.

Lemma skip_spaces_length s : (length (skip_spaces s) <= length s)%nat.
Proof. induction s as [|c s IH]; simpl; [lia|]. destruct (isspace c); simpl; lia. Qed.

(** [atoi] of at most [n] characters stays below [10 ^ n] in absolute value. *)
Lemma atoi_bounds s n :
  (length s <= n)%nat -> - 10 ^ Z.of_nat n < atoi s < 10 ^ Z.of_nat n.
Proof.
  intros Hlen. unfold atoi.
  pose proof (skip_spaces_length s) as Hskip.
  assert (Hmono : forall m, (m <= n)%nat -> 10 ^ Z.of_nat m <= 10 ^ Z.of_nat n)
    by (intros; apply Z.pow_le_mono_r; lia).
  destruct (skip_spaces s) as [|c rest] eqn:Hs.
  { assert (0 < 10 ^ Z.of_nat n) by (apply Z.pow_pos_nonneg; lia). lia. }
  simpl in Hskip.
  pose proof (atoi_digits_bounds rest 0 ltac:(lia)) as Hrest.
  pose proof (atoi_digits_bounds (c :: rest) 0 ltac:(lia)) as Hall.
  pose proof (Hmono (length rest) ltac:(lia)).
  pose proof (Hmono (length (c :: rest)) ltac:(simpl; lia)).
  repeat case_match; lia.
Qed.

Lemma fgets_chars_length n stream : (length (fgets_chars n stream) <= n)%nat.
Proof.
  revert stream. induction n as [|n IH]; intros [|c rest]; simpl; try lia.
  destruct (Ascii.eqb c newline); simpl; [lia|]. specialize (IH rest). lia.
Qed.

Lemma c_str_length buf : (length (c_str buf) <= length buf)%nat.
Proof. induction buf as [|c rest IH]; simpl; [lia|]. destruct (Ascii.eqb c NUL); simpl; lia. Qed.

Lemma chomp_length s : (length (chomp s) <= length s)%nat.
Proof.
  unfold chomp. destruct (last s); [|lia].
  destruct (Ascii.eqb _ _); [rewrite length_take|]; lia.
Qed.

(** The number parsed from the buffer of [THREAD_LENGTH] characters is far
    inside the range of [int32_t]: [atoi] does not overflow. *)
Lemma parsed_fits_int32 stream fBuff :
  fgets THREAD_LENGTH stream = Some fBuff ->
  - 1000000 < atoi (chomp (c_str fBuff)) < 1000000.
Proof.
  unfold fgets. pose proof (fgets_chars_length (THREAD_LENGTH - 1) stream) as Hlen.
  destruct (fgets_chars _ stream) as [|c cs] eqn:Hbuf; [done|]. intros [= <-].
  apply (atoi_bounds _ 6).
  pose proof (chomp_length (c_str (c :: cs))). pose proof (c_str_length (c :: cs)).
  simpl in *. lia.
Qed.

(** The command line for process 4242, and three runs: a plain count, a count
    above the limit, and an empty pipe. *)
Example cmd_4242 :
  ("ps -p " +:+ pretty 4242 +:+ " -Tf | wc -l")%string = "ps -p 4242 -Tf | wc -l"%string.
Proof. reflexivity. Qed.

Example GetThreadNum_plain :
  GetThreadNum (fun _ => Some ["3"; "7"; newline]%char) 4242
  = Returns 37.
Proof. reflexivity. Qed.

Example GetThreadNum_truncated :
  GetThreadNum (fun _ => Some (list_ascii_of_string "1234567")) 1
  = Throws "thread number is out of control".
Proof. reflexivity. Qed.

Example GetThreadNum_empty_pipe :
  GetThreadNum (fun _ => Some []) 1
  = Throws "could not open the file to get thread number".
Proof. reflexivity. Qed.

(** With the pipe open, [GetThreadNum] either throws or returns a count
    between 0 and 100000, for every process id and whatever the command
    prints; the only other outcome is the null stream of a [popen] that
    failed. *)
Theorem GetThreadNum_in_range (popen : string -> option (list ascii)) (id : Z) :
  match GetThreadNum popen id with
  | Returns n => 0 <= n <= 100000
  | Throws _ => True
  | Undef => popen ("ps -p " +:+ pretty id +:+ " -Tf | wc -l")%string = None
  end.
Proof.
  unfold GetThreadNum.
  destruct (popen _) as [stream|]; [|done].
  destruct (fgets _ _) as [fBuff|]; [|done].
  destruct (_ || _) eqn:Hrange; [done|].
  apply orb_false_elim in Hrange as [Hlo%Z.ltb_ge Hhi].
  rewrite Z.gtb_ltb in Hhi. apply Z.ltb_ge in Hhi.
  unfold MIN_THREAD_NUM, MAX_THREAD_NUM in *. simpl. lia.
Qed.

(** C10, on a pipe that cannot be opened. [popen] returns a null pointer, which
    [GetThreadNum] hands to [fgets] untested: for every process id the call
    has undefined behaviour, it neither throws nor returns a count.  A
    failed [popen] is the only way to get there. *)
Theorem GetThreadNum_null_stream (id : Z) :
  let r := GetThreadNum (fun _ => None) id in
  r = Undef
  ∧ (∀ msg, r ≠ Throws msg)
  ∧ (∀ n, r ≠ Returns n)
  ∧ ∀ popen, GetThreadNum popen id = Undef
      <-> popen ("ps -p " +:+ pretty id +:+ " -Tf | wc -l")%string = None.
Proof.
  cbn zeta. split_and!; [done..|].
  intros popen. unfold GetThreadNum.
  destruct (popen _) as [stream|]; [|done].
  destruct (fgets _ _) as [fBuff|]; [|done].
  by destruct (_ || _).
Qed.

End UtilsFacts.

(** ** Operations on an empty node, operations that are not implemented *)

Section EmptyAndUnsupported.
Context {F : Faiss} {R : RangeUtil} {G : FaissGpu F}.

(** [GpuIvfIndexNode::Search] has no test of [gpu_index_]: with at least one
    query row the null pointer is dereferenced. *)
Lemma gpu_search_empty_rows nomem σ ds cfg bitset :
  0 < GetRows ds ->
  GpuIvf.Search nomem σ gpu_empty ds cfg bitset = Undef.
Proof.
  intros Hrows. unfold GpuIvf.Search, GpuIvf.block_starts, GpuIvf.block_size.
  simpl GpuIvf.gpu_index_. cbv zeta.
  assert (Hdiv : 0 < (GetRows ds + 2048 - 1) / 2048)
    by (apply Z.div_str_pos; lia).
  destruct (Z.to_nat ((GetRows ds + 2048 - 1) / 2048)) as [|n] eqn:Hn; [lia|].
  by destruct (_ <? _).
Qed.

(** With no query row the same call returns an (empty) result dataset. *)
Lemma gpu_search_empty_no_rows nomem σ ds cfg bitset :
  GetRows ds = 0 ->
  GpuIvf.Search nomem σ gpu_empty ds cfg bitset
  = Returns (value (TopK 0 (GpuIvf.k cfg) [] []), σ).
Proof.
  intros Hrows. unfold GpuIvf.Search, GpuIvf.block_starts. rewrite Hrows.
  by destruct nomem.
Qed.

(** C3, as amended. On a flat or binary-flat node in state [Empty], [Search]
    and [RangeSearch] fail with [empty_index] and return no dataset; on a GPU
    IVF node [RangeSearch] fails with [not_implemented] in every state, the
    state [Empty] included. *)
Theorem empty_node_search_errors
    (T : IndexKind) (nomem : bool) (σ : gmap loc Index)
    (ds : DataSet) (cfg : FlatConfig) (gcfg : GpuIvf.GpuIvfConfig)
    (gnode : GpuIvf.GpuIvfIndexNode) (bitset : Bitset) :
  Flat.Search T nomem σ flat_empty ds cfg bitset = Returns (unexpected empty_index)
  ∧ Flat.RangeSearch T σ flat_empty ds cfg bitset = Returns (unexpected empty_index)
  ∧ (GpuIvf.RangeSearch σ gnode ds gcfg bitset).1.1 = Returns (unexpected not_implemented).
Proof. by repeat split. Qed.

(** C9. [RangeSearch], [GetVectorByIds] and [GetIndexMeta] of the GPU IVF node
    and [GetIndexMeta] of the flat node return [not_implemented] for every
    input, and hand back the store and the node as they received them. *)
Theorem not_implemented_operations
    (T : IndexKind) (σ : gmap loc Index)
    (node : Flat.FlatIndexNode) (gnode : GpuIvf.GpuIvfIndexNode)
    (ds : DataSet) (cfg : FlatConfig) (gcfg : GpuIvf.GpuIvfConfig)
    (bitset : Bitset) :
  GpuIvf.RangeSearch σ gnode ds gcfg bitset
    = (Returns (unexpected not_implemented), σ, gnode)
  ∧ GpuIvf.GetVectorByIds σ gnode ds gcfg
    = (Returns (unexpected not_implemented), σ, gnode)
  ∧ GpuIvf.GetIndexMeta σ gnode gcfg
    = (Returns (unexpected not_implemented), σ, gnode)
  ∧ Flat.GetIndexMeta σ node cfg
    = (Returns (unexpected not_implemented), σ, node).
Proof. by repeat split. Qed.

End EmptyAndUnsupported.

(** C3, as stated, fails on the GPU IVF node: [RangeSearch] on a node in state
    [Empty] reports [not_implemented], not [empty_index]. *)
Lemma gpu_range_search_empty_not_empty_index :
  let r := (GpuIvf.RangeSearch (F := Toy.faiss) (G := Toy.gpu) ∅ gpu_empty
              {| GetRows := 1; GetDim := 1; GetTensor := [5]; GetIds := [] |}
              {| GpuIvf.metric_type := "L2"; GpuIvf.k := 1; GpuIvf.nprobe := 1 |}
              []).1.1 in
  r = Returns (unexpected not_implemented) ∧ r ≠ Returns (unexpected empty_index).
Proof. by split. Qed.

(** ** The small backend honours the contracts *)

Lemma toy_storage : StorageContract Toy.faiss.
Proof.
  split.
  - intros T d m. reflexivity.
  - intros n x ix ix' Hadd. cbn in Hadd |- *. unfold Toy.add in Hadd.
    case_match eqn:Hok; [|done]. injection Hadd as <-.
    apply andb_prop in Hok as [[Hn%Z.leb_le Hx%Z.leb_le]%andb_prop Hs%Z.ltb_lt].
    cbn. rewrite length_app, length_take.
    replace (Z.of_nat (length (Toy.codes ix) + Z.to_nat (n * Toy.stride ix) `min` length x))
      with (Z.of_nat (length (Toy.codes ix)) + n * Toy.stride ix) by lia.
    unfold Toy.stride in *. cbn. rewrite Z.div_add by lia. reflexivity.
  - intros name. cbn. unfold Toy.metric_of. by repeat case_match.
Qed.

Lemma toy_search_with_fills {D} (dist : Z -> D) q k hs :
  Toy.search_with dist q k = inr hs -> Z.of_nat (length hs) = k.
Proof.
  unfold Toy.search_with. case_match eqn:Hok; [done|]. intros [= <-].
  apply orb_false_elim in Hok as [Hk%Z.ltb_ge _].
  rewrite length_fmap, length_seq. lia.
Qed.

Lemma toy_kernel : KernelContract Toy.faiss.
Proof. split; intros ix q k bs hs; apply toy_search_with_fills. Qed.

Lemma toy_codec : CodecContract Toy.faiss.
Proof.
  split. intros [[] dim [| |c] cs] bytes [= <-]; cbn; try reflexivity.
  all: unfold Toy.read; cbn; repeat case_bool_decide; try lia; try reflexivity.
  all: exfalso; intuition lia.
Qed.

(** ** [Add] replaces the backend instance *)

Section FlatAdd.
Context {F : Faiss} (HC : StorageContract F).

Lemma build_is_add T nomem σ node ds cfg :
  Flat.Build T nomem σ node ds cfg = Flat.Add T nomem σ node ds cfg.
Proof. reflexivity. Qed.

(** C8. A successful [Add] on a flat or binary-flat node leaves the node with
    a newly constructed instance that received exactly the rows of this call:
    [Count] is the row count of the dataset whatever the node held before,
    and the instance held before is deleted.  [Build] is the same call after
    a [Train] that does nothing. *)
Theorem add_replaces_instance T nomem σ node ds cfg σ' node' :
  Flat.Add T nomem σ node ds cfg = Returns (success, σ', node') ->
  Flat.Build T nomem σ node ds cfg = Returns (success, σ', node')
  ∧ Flat.Count σ' node' = Returns (GetRows ds)
  ∧ ∃ l metric ix,
      Str2FaissMetricType (metric_type cfg) = value metric
      ∧ Flat.index_ node' = Some l
      ∧ σ !! l = None
      ∧ index_add (GetRows ds) (GetTensor ds) (index_new T (GetDim ds) metric) = inr ix
      ∧ σ' !! l = Some ix
      ∧ ∀ old, Flat.index_ node = Some old -> σ' !! old = None.
Proof.
  intros Hadd. split; [by rewrite build_is_add|].
  unfold Flat.Add in Hadd.
  destruct (Str2FaissMetricType (metric_type cfg)) as [metric|e] eqn:Hmetric.
  2:{ injection Hadd as -> _ _. by apply metric_error in Hmetric. }
  destruct nomem; [done|].
  set (l := fresh (dom σ)) in Hadd.
  assert (Hfresh : σ !! l = None) by (apply not_elem_of_dom, is_fresh).
  assert (Hcount : ∀ ix (σ1 : gmap loc Index),
             index_add (GetRows ds) (GetTensor ds)
               (index_new T (GetDim ds) metric) = inr ix ->
             Flat.Count (<[l := ix]> σ1) {| Flat.index_ := Some l |}
             = Returns (GetRows ds)).
  { intros ix σ1 Hix. unfold Flat.Count, deref. cbn.
    rewrite lookup_insert_eq. cbn.
    by rewrite (ntotal_add _ _ _ _ Hix), ntotal_new. }
  destruct (Flat.index_ node) as [old|] eqn:Hold; cbn in Hadd.
  - unfold delete_index in Hadd.
    destruct (σ !! old) eqn:Hlive; [|done]. cbn in Hadd.
    destruct (index_add _ _ _) as [e|ix] eqn:Hix; [done|].
    injection Hadd as <- <-. split; [by apply Hcount|].
    exists l, metric, ix. split_and!; try done.
    + apply lookup_insert_eq.
    + intros ? [= <-]. rewrite lookup_insert_ne by congruence.
      apply lookup_delete_eq.
  - destruct (index_add _ _ _) as [e|ix] eqn:Hix; [done|].
    injection Hadd as <- <-. split; [by apply Hcount|].
    exists l, metric, ix. split_and!; try done. apply lookup_insert_eq.
Qed.

End FlatAdd.

(** [Build] on a fresh node with three vectors gives the sample node. *)
Example build_sample_node :
  Flat.Build (F := Toy.faiss) IndexFlat false ∅ flat_empty toy_ds3 toy_cfg
  = Returns (success, toy_store, toy_node).
Proof. reflexivity. Qed.

(** A node holding three vectors receives a dataset of two: it counts two. *)
Lemma add_replaces_instance_witness :
  Flat.Count (F := Toy.faiss)
    (<[2%positive := toy_index [5; 9]]> (delete 1%positive toy_store))
    {| Flat.index_ := Some 2%positive |}
  = Returns 2.
Proof.
  apply (add_replaces_instance toy_storage IndexFlat false toy_store toy_node
           toy_ds2 toy_cfg).
  vm_compute. reflexivity.
Defined.

(** ** Serialize and Deserialize *)

Section FlatRoundTrip.
Context {F : Faiss} (HC : CodecContract F).

(** [Search] reads the node only through the instance it points to. *)
Lemma search_same_instance T nomem σ1 node1 σ2 node2 ix ds cfg bitset :
  is_Some (Flat.index_ node1) -> is_Some (Flat.index_ node2) ->
  deref σ1 (Flat.index_ node1) = Returns ix ->
  deref σ2 (Flat.index_ node2) = Returns ix ->
  Flat.Search T nomem σ1 node1 ds cfg bitset = Flat.Search T nomem σ2 node2 ds cfg bitset.
Proof.
  intros [l1 H1] [l2 H2] Hd1 Hd2. unfold Flat.Search.
  rewrite Hd1, Hd2, H1, H2. reflexivity.
Qed.

Lemma reader_bytes_appended bytes :
  reader_bytes {| data := bytes; size := Z.of_nat (length bytes) |} = bytes.
Proof. unfold reader_bytes. cbn. rewrite Nat2Z.id. by apply take_ge. Qed.

(** C6. When [Serialize] succeeds on a flat or binary-flat node, [Deserialize]
    of the resulting blob container into a fresh node (in any store) succeeds,
    and [Search] on the new node returns, for every query batch,
    configuration and bitset, exactly what [Search] returns on the original
    node: the same ids and the same distances. *)
Theorem serialize_deserialize_search T σ node binset binset' σ0 :
  Flat.Serialize T σ node binset = Returns (success, binset') ->
  ∃ σ' node',
    Flat.Deserialize T σ0 flat_empty binset' = Returns (success, σ', node')
    ∧ ∀ nomem ds cfg bitset,
        Flat.Search T nomem σ' node' ds cfg bitset
        = Flat.Search T nomem σ node ds cfg bitset.
Proof.
  unfold Flat.Serialize. intros Hser.
  destruct (Flat.index_ node) as [l|] eqn:Hl; [|done].
  destruct (deref σ (Some l)) as [ix| |] eqn:Hix; try done. cbn in Hser.
  destruct (write_index ix) as [e|bytes] eqn:Hw; [done|].
  injection Hser as <-.
  unfold Flat.Deserialize, GetByName, Append. cbn.
  rewrite lookup_insert_eq, reader_bytes_appended, (read_write_index _ _ Hw).
  eexists _, _. split; [reflexivity|].
  intros nomem ds cfg bitset.
  apply (search_same_instance _ _ _ _ _ _ ix); cbn; rewrite ?Hl; eauto.
  by rewrite lookup_insert_eq.
Qed.

End FlatRoundTrip.

(** The node with three vectors, serialized into an empty container and read
    back into a fresh node of an empty store. *)
Lemma serialize_deserialize_search_witness :
  ∃ σ' node',
    Flat.Deserialize (F := Toy.faiss) IndexFlat ∅ flat_empty
      (Append "FLAT" [0; 1; 2; 1; 4; 6; 20] 7 ∅) = Returns (success, σ', node')
    ∧ ∀ nomem ds cfg bitset,
        Flat.Search (F := Toy.faiss) IndexFlat nomem σ' node' ds cfg bitset
        = Flat.Search (F := Toy.faiss) IndexFlat nomem toy_store toy_node ds cfg bitset.
Proof.
  apply (serialize_deserialize_search toy_codec IndexFlat toy_store toy_node ∅).
  vm_compute. reflexivity.
Defined.

(** ** Running a list of tasks *)

Section MapM.
Context {A B : Type} (f : A -> exec B).

Lemma mapM_exec_Returns l outs :
  mapM f l = Returns outs <-> Forall2 (fun x y => f x = Returns y) l outs.
Proof.
  revert outs. induction l as [|x l IH]; intros outs; cbn.
  - split; [intros [= <-]; constructor | by inversion 1].
  - split.
    + destruct (f x) as [y| |] eqn:Hx; try done. cbn.
      destruct (mapM f l) as [ys| |] eqn:Hl; try done. cbn.
      intros [= <-]. constructor; [done|]. by apply IH.
    + inversion 1 as [|? y ? ys Hx Hl]; subst. rewrite Hx. cbn.
      apply IH in Hl. rewrite Hl. reflexivity.
Qed.

Lemma mapM_exec_lookup l outs i x :
  mapM f l = Returns outs -> l !! i = Some x ->
  ∃ y, outs !! i = Some y ∧ f x = Returns y.
Proof.
  rewrite mapM_exec_Returns. intros Hall Hi.
  destruct (Forall2_lookup_l _ _ _ _ _ Hall Hi) as (y & ? & ?). eauto.
Qed.

Lemma mapM_exec_length l outs :
  mapM f l = Returns outs -> length outs = length l.
Proof. rewrite mapM_exec_Returns. intros Hall. symmetry. by eapply Forall2_length. Qed.

End MapM.

(** When no task raised, every outcome is a row. *)
Lemma finished_all {A} (outs : list (exn + A)) :
  existsb Flat.raised outs = false -> outs = inr <$> Flat.finished outs.
Proof.
  unfold Flat.finished. induction outs as [|[e|a] outs IH]; cbn; [done..|].
  intros H. f_equal. by apply IH.
Qed.

(** ** Offsets of a merged range result *)

Section Offsets.
Context {A : Type}.
Implicit Types (rows : list (list A)) (row : list A).
Local Open Scope nat_scope.

Lemma length_concat rows : length (concat rows) = sum_list (length <$> rows).
Proof. induction rows as [|row rows IH]; cbn; [done|]. rewrite length_app. lia. Qed.

Lemma length_offsets rows : length (offsets rows) = S (length rows).
Proof. unfold offsets. by rewrite length_map, length_seq. Qed.

Lemma lookup_offsets rows i a :
  offsets rows !! i = Some a <->
  i <= length rows ∧ a = sum_list (length <$> take i rows).
Proof.
  unfold offsets. change (map ?g ?l) with (g <$> l).
  rewrite list_lookup_fmap, fmap_Some. setoid_rewrite lookup_seq.
  split; [intros (? & [-> ?] & ->) | intros [? ->]; eexists]; split; auto with lia.
Qed.

Lemma offsets_first rows : offsets rows !! 0 = Some 0.
Proof. apply lookup_offsets. cbn. split; [lia|done]. Qed.

Lemma offsets_last rows : offsets rows !! length rows = Some (length (concat rows)).
Proof. apply lookup_offsets. rewrite firstn_all, length_concat. auto. Qed.

Lemma prefix_sum_step rows i row :
  rows !! i = Some row ->
  sum_list (length <$> take (S i) rows)
  = sum_list (length <$> take i rows) + length row.
Proof.
  intros Hi. rewrite (take_S_r _ _ _ Hi), fmap_app.
  rewrite sum_list_with_app. cbn. lia.
Qed.

(** Two consecutive offsets delimit one row. *)
Lemma offsets_consecutive rows i a b :
  offsets rows !! i = Some a -> offsets rows !! S i = Some b ->
  ∃ row, rows !! i = Some row ∧ b = a + length row.
Proof.
  intros [_ ->]%lookup_offsets [Hlt ->]%lookup_offsets.
  destruct (lookup_lt_is_Some_2 rows i ltac:(lia)) as [row Hrow].
  exists row. split; [done|]. by apply prefix_sum_step.
Qed.

Lemma offsets_row rows i row :
  rows !! i = Some row ->
  ∃ a, offsets rows !! i = Some a ∧ offsets rows !! S i = Some (a + length row)
       ∧ take (length row) (drop a (concat rows)) = row.
Proof.
  intros Hi. pose proof (lookup_lt_Some _ _ _ Hi) as Hlt.
  exists (sum_list (length <$> take i rows)). split_and!.
  - apply lookup_offsets. split; [lia|done].
  - apply lookup_offsets. split; [lia|]. symmetry. by apply prefix_sum_step.
  - rewrite <- length_concat.
    rewrite <- (take_drop_middle _ _ _ Hi) at 2.
    rewrite concat_app, drop_app_length. cbn. apply take_app_length.
Qed.

Lemma offsets_monotone rows i a b :
  offsets rows !! i = Some a -> offsets rows !! S i = Some b -> a <= b.
Proof. intros Ha Hb. destruct (offsets_consecutive _ _ _ _ Ha Hb) as (? & _ & ->). lia. Qed.

End Offsets.

(** ** Range search on the flat node *)

Section FlatRange.
Context {F : Faiss} {R : RangeUtil}.
Variable T : IndexKind.
Local Open Scope nat_scope.

(** What a successful [RangeSearch] is made of: one row per query, in row
    order, flattened by [GetRangeSearchResult]. *)
Lemma range_search_success σ node ds cfg bitset nq ids distances lims :
  Flat.RangeSearch T σ node ds cfg bitset
    = Returns (value (Range nq ids distances lims)) ->
  ∃ ix rows,
    deref σ (Flat.index_ node) = Returns ix
    ∧ nq = GetRows ds ∧ (0 <= nq)%Z
    ∧ mapM (Flat.range_task T ix (GetTensor ds) cfg bitset) (seq 0 (Z.to_nat nq))
      = Returns (inr <$> rows)
    ∧ ids = (concat rows).*1 ∧ distances = (concat rows).*2
    ∧ lims = offsets rows.
Proof.
  unfold Flat.RangeSearch. intros Hrs.
  destruct (Flat.index_ node) as [l|] eqn:Hl; [|done].
  destruct (deref σ (Some l)) as [ix| |] eqn:Hix; try done. cbn in Hrs.
  destruct (GetRows ds <? 0)%Z eqn:Hneg; [done|]. apply Z.ltb_ge in Hneg.
  destruct (INT_MAX <? GetRows ds)%Z eqn:Hbig; [done|].
  destruct (mapM _ _) as [outs| |] eqn:Houts; try done. cbn in Hrs.
  destruct (existsb Flat.raised outs) eqn:Hraised; [done|].
  injection Hrs as <- <- <- <-.
  exists ix, (Flat.finished outs). split_and!; try done.
  by rewrite <- finished_all.
Qed.

(** C4. A successful [RangeSearch] over the [nq] query rows of a dataset
    returns [nq + 1] offsets; they start at 0, never decrease, and end at the number of
    emitted ids; the slice between two consecutive offsets holds the labels
    and distances that the task of that row produced, and is empty when the
    row has no surviving hit. *)
Theorem range_search_offsets σ node ds cfg bitset nq ids distances lims :
  Flat.RangeSearch T σ node ds cfg bitset
    = Returns (value (Range nq ids distances lims)) ->
  nq = GetRows ds
  ∧ length lims = S (Z.to_nat nq)
  ∧ lims !! 0 = Some 0
  ∧ (∀ i a b, lims !! i = Some a -> lims !! S i = Some b -> a <= b)
  ∧ lims !! Z.to_nat nq = Some (length ids)
  ∧ length distances = length ids
  ∧ ∀ i, i < Z.to_nat nq ->
      ∃ ix row a,
        deref σ (Flat.index_ node) = Returns ix
        ∧ Flat.range_task T ix (GetTensor ds) cfg bitset i = Returns (inr row)
        ∧ lims !! i = Some a ∧ lims !! S i = Some (a + length row)
        ∧ take (length row) (drop a ids) = row.*1
        ∧ take (length row) (drop a distances) = row.*2.
Proof.
  intros (ix & rows & Hix & -> & Hnq & Hrows & -> & -> & ->)%range_search_success.
  assert (Hlen : length rows = Z.to_nat (GetRows ds)).
  { apply mapM_exec_length in Hrows. by rewrite length_fmap, length_seq in Hrows. }
  split_and!.
  - done.
  - by rewrite length_offsets, Hlen.
  - apply offsets_first.
  - apply offsets_monotone.
  - rewrite <- Hlen, length_fmap. apply offsets_last.
  - by rewrite !length_fmap.
  - intros i Hi.
    destruct (mapM_exec_lookup _ _ _ i i Hrows) as (out & Hout & Htask).
    { by apply lookup_seq_lt. }
    rewrite list_lookup_fmap in Hout.
    destruct (rows !! i) as [row|] eqn:Hrow; [|done]. injection Hout as <-.
    destruct (offsets_row _ _ _ Hrow) as (a & Ha & Hb & Hslice).
    exists ix, row, a. split_and!; try done.
    + rewrite <- fmap_drop, <- fmap_take. f_equal. exact Hslice.
    + rewrite <- fmap_drop, <- fmap_take. f_equal. exact Hslice.
Qed.

End FlatRange.

(** Two queries against the node with three vectors, band filter enabled: the
    first row loses both of its hits, the second keeps its single one. *)
Lemma range_search_offsets_witness :
  Flat.RangeSearch (F := Toy.faiss) (R := Toy.range_util) IndexFlat
    toy_store toy_node toy_ds2 toy_cfg []
  = Returns (value (Range 2 [1] [float_of_int32 3] [0; 0; 1]%nat))
  ∧ [0; 0; 1]%nat !! 2%nat = Some 1%nat.
Proof.
  assert (Hrun : Flat.RangeSearch (F := Toy.faiss) (R := Toy.range_util) IndexFlat
                   toy_store toy_node toy_ds2 toy_cfg []
                 = Returns (value (Range 2 [1] [float_of_int32 3] [0; 0; 1]%nat)))
    by (vm_compute; reflexivity).
  split; [exact Hrun|].
  exact (proj1 (proj2 (proj2 (proj2 (proj2
           (range_search_offsets IndexFlat _ _ _ _ _ _ _ _ _ Hrun)))))).
Defined.

(** ** The band filter of range search *)

Section FlatBand.
Context {F : Faiss} {R : RangeUtil}.
Variable T : IndexKind.
Local Open Scope nat_scope.

Lemma filter_row_length (row : list (hit float)) ip r rf :
  length (FilterRangeSearchResultForOneNq row ip r rf) <= length row.
Proof. apply length_filter. Qed.

Lemma range_task_disabled ix x cfg bitset i out :
  SFeqb defaultRangeFilter defaultRangeFilter = true ->
  float_ne (range_filter cfg) defaultRangeFilter = true ->
  Flat.range_task T ix x cfg bitset i = Returns out ->
  ∃ out0, Flat.range_task T ix x (disable_filter cfg) bitset i = Returns out0
          ∧ filtered_from (Flat.is_ip T ix) cfg out out0.
Proof.
  intros Hsentinel Hon. unfold Flat.range_task, disable_filter, float_ne. cbn.
  rewrite Hsentinel. unfold float_ne in Hon. rewrite Hon. cbn.
  destruct (read_span _ _ _) as [q| |]; try done. cbn.
  intros [= <-]. eexists. split; [reflexivity|].
  by destruct (index_range_search _ _ _ _).
Qed.

Lemma tasks_disabled ix x cfg bitset l rows :
  SFeqb defaultRangeFilter defaultRangeFilter = true ->
  float_ne (range_filter cfg) defaultRangeFilter = true ->
  mapM (Flat.range_task T ix x cfg bitset) l = Returns (inr <$> rows) ->
  ∃ rows0,
    mapM (Flat.range_task T ix x (disable_filter cfg) bitset) l
      = Returns (inr <$> rows0)
    ∧ Forall2 (fun row row0 =>
                 row = FilterRangeSearchResultForOneNq row0 (Flat.is_ip T ix)
                         (radius cfg) (range_filter cfg)) rows rows0.
Proof.
  intros Hsentinel Hon. setoid_rewrite mapM_exec_Returns.
  revert rows. induction l as [|i l IH]; intros rows Hall.
  - destruct rows; [|by inversion Hall].
    exists []. split; constructor.
  - destruct rows as [|row rows]; [inversion Hall|].
    rewrite fmap_cons in Hall. apply Forall2_cons in Hall as [Hi Hl].
    destruct (IH _ Hl) as (rows0 & Hl0 & Hrel).
    destruct (range_task_disabled _ _ _ _ _ _ Hsentinel Hon Hi) as ([e|row0] & Hi0 & Hf);
      [done|].
    exists (row0 :: rows0). split; [rewrite fmap_cons|]; by constructor.
Qed.

Lemma raised_rows {A} (rows : list A) :
  existsb Flat.raised (inr (A := exn) <$> rows) = false.
Proof. by induction rows. Qed.

Lemma finished_rows {A} (rows : list A) :
  Flat.finished (inr (A := exn) <$> rows) = rows.
Proof. unfold Flat.finished. induction rows; cbn; [done|]. by f_equal. Qed.

(** The rows of a successful filtered run only hold hits inside the band. *)
Lemma rows_in_band ix x cfg bitset l rows :
  float_ne (range_filter cfg) defaultRangeFilter = true ->
  mapM (Flat.range_task T ix x cfg bitset) l = Returns (inr <$> rows) ->
  Forall (fun h : hit float =>
            distance_in_band (Flat.is_ip T ix) (radius cfg) (range_filter cfg) h.2
            = true) (concat rows).
Proof.
  intros Hon. rewrite mapM_exec_Returns.
  revert rows. induction l as [|i l IH]; intros rows Hall.
  - destruct rows; [|by inversion Hall]. constructor.
  - destruct rows as [|row rows]; [inversion Hall|].
    rewrite fmap_cons in Hall. apply Forall2_cons in Hall as [Hi Hl].
    cbn. apply Forall_app. split; [|by apply IH].
    unfold Flat.range_task in Hi. rewrite Hon in Hi.
    destruct (read_span _ _ _) as [q| |]; try done. cbn in Hi.
    destruct (index_range_search _ _ _ _) as [e|res]; [done|].
    injection Hi as <-. unfold FilterRangeSearchResultForOneNq.
    apply Forall_forall. by intros h [? _]%list_elem_of_filter.
Qed.

(** C5. When the band filter is enabled ([range_filter] differs from the
    sentinel, and the sentinel is a value that compares equal to itself), every
    (id, distance) pair a successful [RangeSearch] emits satisfies the band
    predicate for the node's metric orientation, [radius] and [range_filter];
    and the same call with the filter disabled succeeds too, with at least as
    many hits in every row. *)
Theorem range_filter_band σ node ds cfg bitset nq ids distances lims :
  SFeqb defaultRangeFilter defaultRangeFilter = true ->
  float_ne (range_filter cfg) defaultRangeFilter = true ->
  Flat.RangeSearch T σ node ds cfg bitset
    = Returns (value (Range nq ids distances lims)) ->
  (∃ ix, deref σ (Flat.index_ node) = Returns ix
         ∧ ∀ j id dist,
             ids !! j = Some id -> distances !! j = Some dist ->
             distance_in_band (Flat.is_ip T ix) (radius cfg) (range_filter cfg) dist
             = true)
  ∧ ∃ ids0 distances0 lims0,
      Flat.RangeSearch T σ node ds (disable_filter cfg) bitset
        = Returns (value (Range nq ids0 distances0 lims0))
      ∧ ∀ i a b a0 b0,
          lims !! i = Some a -> lims !! S i = Some b ->
          lims0 !! i = Some a0 -> lims0 !! S i = Some b0 ->
          b - a <= b0 - a0.
Proof.
  intros Hsentinel Hon Hrs.
  pose proof Hrs as (ix & rows & Hix & -> & Hnq & Hrows & -> & -> & ->)%range_search_success.
  split.
  - exists ix. split; [done|]. intros j id dist _ Hdist.
    rewrite list_lookup_fmap, fmap_Some in Hdist. destruct Hdist as (h & Hh & ->).
    pose proof (rows_in_band _ _ _ _ _ _ Hon Hrows) as Hband.
    by apply (Forall_lookup_1 _ _ _ _ Hband Hh).
  - destruct (tasks_disabled _ _ _ _ _ _ Hsentinel Hon Hrows) as (rows0 & Hrows0 & Hrel).
    exists (concat rows0).*1, (concat rows0).*2, (offsets rows0). split.
    + unfold Flat.RangeSearch in Hrs |- *.
      destruct (Flat.index_ node) as [l|]; [|done].
      rewrite Hix. cbn.
      rewrite (proj2 (Z.ltb_ge _ _) Hnq) in Hrs |- *.
      destruct (INT_MAX <? GetRows ds)%Z; [by rewrite Hix in Hrs|].
      rewrite Hrows0. cbn. by rewrite raised_rows, finished_rows.
    + intros i a b a0 b0 Ha Hb Ha0 Hb0.
      destruct (offsets_consecutive _ _ _ _ Ha Hb) as (row & Hrow & ->).
      destruct (offsets_consecutive _ _ _ _ Ha0 Hb0) as (row0 & Hrow0 & ->).
      pose proof (Forall2_lookup_lr _ _ _ _ _ _ Hrel Hrow Hrow0) as ->.
      pose proof (filter_row_length row0 (Flat.is_ip T ix) (radius cfg)
                    (range_filter cfg)).
      lia.
Qed.

End FlatBand.

(** The same two queries: with the band [[2, 4)] only the hit at distance 3
    survives; with the filter disabled the rows hold two hits and one. *)
Lemma range_filter_band_witness :
  Flat.RangeSearch (F := Toy.faiss) (R := Toy.range_util) IndexFlat
    toy_store toy_node toy_ds2 toy_cfg []
  = Returns (value (Range 2 [1] [float_of_int32 3] [0; 0; 1]%nat))
  ∧ ∃ ids0 distances0 lims0,
      Flat.RangeSearch (F := Toy.faiss) (R := Toy.range_util) IndexFlat
        toy_store toy_node toy_ds2 (disable_filter (H := Toy.range_util) toy_cfg) []
      = Returns (value (Range 2 ids0 distances0 lims0))
      ∧ ∀ i a b a0 b0,
          [0; 0; 1]%nat !! i = Some a -> [0; 0; 1]%nat !! S i = Some b ->
          lims0 !! i = Some a0 -> lims0 !! S i = Some b0 ->
          (b - a <= b0 - a0)%nat.
Proof.
  assert (Hrun : Flat.RangeSearch (F := Toy.faiss) (R := Toy.range_util) IndexFlat
                   toy_store toy_node toy_ds2 toy_cfg []
                 = Returns (value (Range 2 [1] [float_of_int32 3] [0; 0; 1]%nat)))
    by (vm_compute; reflexivity).
  split; [exact Hrun|].
  refine (proj2 (range_filter_band (R := Toy.range_util) IndexFlat
                   _ _ _ _ _ _ _ _ _ _ _ Hrun)).
  - vm_compute. reflexivity.
  - vm_compute. reflexivity.
Defined.

Example range_search_unfiltered :
  Flat.RangeSearch (F := Toy.faiss) (R := Toy.range_util) IndexFlat
    toy_store toy_node toy_ds2 (disable_filter (H := Toy.range_util) toy_cfg) []
  = Returns (value (Range 2 [0; 1; 1]
                      [float_of_int32 1; float_of_int32 1; float_of_int32 3]
                      [0; 2; 3]%nat)).
Proof. vm_compute. reflexivity. Qed.

(** ** Deserialize and the instance held before *)

Section DeserializeReplaces.
Context {F : Faiss} {G : FaissGpu F}.

(** The flat node deletes the instance it holds before it reads the blob: the
    store afterwards is the store without the old instance, plus the decoded
    one, and the node points to the decoded one. *)
Lemma flat_deserialize_releases T σ node binset σ' node' old :
  Flat.index_ node = Some old ->
  Flat.Deserialize T σ node binset = Returns (success, σ', node') ->
  ∃ l binary ix,
    GetByName (Flat.blob_name T) binset = Some binary
    ∧ read_index (reader_bytes binary) = inr ix
    ∧ is_Some (σ !! old)
    ∧ delete old σ !! l = None
    ∧ σ' = <[l := ix]> (delete old σ)
    ∧ node' = {| Flat.index_ := Some l |}
    ∧ base.size σ' = base.size σ.
Proof.
  intros Hold. unfold Flat.Deserialize, delete_index. rewrite Hold.
  destruct (σ !! old) as [ix0|] eqn:Hlive; [|done]. cbn.
  destruct (GetByName _ _) as [binary|]; [|done].
  destruct (read_index _) as [e|ix] eqn:Hread; [done|].
  intros [= <- <-].
  assert (Hfresh : delete old σ !! fresh (dom (delete old σ)) = None)
    by (apply not_elem_of_dom, is_fresh).
  eexists _, binary, ix. split_and!; try done.
  rewrite map_size_insert_None by done.
  rewrite map_size_delete, Hlive.
  assert (base.size σ ≠ 0%nat) by (intros ->%map_size_empty_inv; by rewrite lookup_empty in Hlive).
  lia.
Qed.

(** The GPU node assigns the converted index to [gpu_index_] and never
    deletes what [gpu_index_] pointed to: the old instance stays in the store,
    the node no longer points to it, and the store has grown by one. *)
Lemma gpu_deserialize_keeps_previous gpu_res σ node binset σ' node' old ix0 :
  GpuIvf.gpu_index_ node = Some old -> σ !! old = Some ix0 ->
  GpuIvf.Deserialize gpu_res σ node binset = Returns (success, σ', node') ->
  σ' !! old = Some ix0
  ∧ GpuIvf.gpu_index_ node' ≠ Some old
  ∧ base.size σ' = S (base.size σ).
Proof.
  intros Hold Hlive. unfold GpuIvf.Deserialize.
  destruct (GetByName _ _) as [binary|]; [|done].
  destruct (read_index _) as [e|ix]; [by intros [= ?]|].
  destruct gpu_res as [res|]; [|done].
  destruct (index_cpu_to_gpu _ _) as [e|gpu_index]; [by intros [= ?]|].
  intros [= <- <-].
  assert (Hfresh : σ !! fresh (dom σ) = None) by (apply not_elem_of_dom, is_fresh).
  assert (Hne : fresh (dom σ) ≠ old) by congruence.
  split_and!.
  - by rewrite lookup_insert_ne.
  - cbn. congruence.
  - by apply map_size_insert_None.
Qed.

End DeserializeReplaces.

(** C7, on the GPU IVF node. [Deserialize] on a node that holds an instance
    succeeds, the node then points to the instance decoded from the blob, and
    the instance held before is still in the store, with nothing pointing to
    it. *)
Theorem gpu_deserialize_leaks_previous_instance :
  GpuIvf.Deserialize (Some toy_res) toy_store toy_gpu_node toy_ivf_binset
  = Returns (success,
             <[2%positive := toy_index [7]]> toy_store,
             {| GpuIvf.res_ := Some toy_res; GpuIvf.gpu_index_ := Some 2%positive |})
  ∧ (<[2%positive := toy_index [7]]> toy_store) !! 1%positive
    = Some (toy_index [4; 6; 20]).
Proof. split; reflexivity. Qed.

(** The flat node on the same store and a container with the same blob under
    its own name: the instance held before is gone. *)
Example flat_deserialize_deletes_previous_instance :
  Flat.Deserialize (F := Toy.faiss) IndexFlat toy_store toy_node
    (Append "FLAT" [0; 1; 2; 1; 7] 5 ∅)
  = Returns (success, {[ 1%positive := toy_index [7] ]},
             {| Flat.index_ := Some 1%positive |}).
Proof. vm_compute. reflexivity. Qed.

(** ** Joining the tasks *)

Module ExecutorFacts.
Import Executor.
Local Open Scope nat_scope.

Lemma invariant_init outs : invariant outs (init (length outs)).
Proof. split; cbn; try done; try lia. by rewrite length_replicate. Qed.

Lemma invariant_step outs st ev :
  invariant outs st -> invariant outs (step outs st ev).
Proof.
  intros Hinv. destruct ev as [i|]; cbn.
  - destruct Hinv as [Hlen Hj Hb Hs He Hst]. split; cbn; try done.
    + by rewrite length_insert.
    + intros j Hlt. destruct (Hj j Hlt) as [Hc Ho]. split; [|done].
      destruct (decide (i = j)) as [->|Hne].
      * apply list_lookup_insert_eq. by apply lookup_lt_Some in Hc.
      * by rewrite list_lookup_insert_ne.
    + intros Herr. destruct (He Herr) as (e & Ho & Hc). exists e. split; [done|].
      destruct (decide (i = joined st)) as [->|Hne].
      * apply list_lookup_insert_eq. by apply lookup_lt_Some in Hc.
      * by rewrite list_lookup_insert_ne.
  - destruct (returned st) as [s|] eqn:Hret; [exact Hinv|].
    destruct Hinv as [Hlen Hj Hb _ _ _].
    destruct (outs !! joined st) as [[e|]|] eqn:Hout.
    + destruct (completed st !! joined st) as [[]|] eqn:Hc;
        [|split; cbn; by rewrite ?Hret..].
      split; cbn; try done.
      * intros _. exists e. by rewrite Hout, Hc.
      * intros ? [= <-]. by right.
    + destruct (completed st !! joined st) as [[]|] eqn:Hc;
        [|split; cbn; by rewrite ?Hret..].
      apply lookup_lt_Some in Hout as Hlt.
      split; cbn; try done; try lia.
      intros j Hjs. destruct (decide (j = joined st)) as [->|]; [done|].
      apply Hj. lia.
    + apply lookup_ge_None in Hout.
      split; cbn; try done; try lia. intros ? [= <-]. by left.
Qed.

Lemma invariant_run outs evs : invariant outs (run outs evs).
Proof.
  unfold run. induction evs as [|ev evs IH] using rev_ind; cbn.
  - apply invariant_init.
  - rewrite foldl_app. cbn. by apply invariant_step.
Qed.

(** When no task throws, the loop is left only after every task has run to
    its end. *)
Lemma join_success_all_completed outs evs :
  returned (run outs evs) = Some success -> all_completed (run outs evs).
Proof.
  intros Hret. destruct (invariant_run outs evs) as [Hlen Hj _ Hs _ _].
  specialize (Hs Hret). unfold all_completed. apply Forall_lookup.
  intros j b Hb. apply lookup_lt_Some in Hb as Hlt.
  destruct (Hj j ltac:(lia)) as [Hc _]. congruence.
Qed.

(** The call reports one of two statuses; the error is reported because a
    task threw. *)
Lemma join_single_status outs evs s :
  returned (run outs evs) = Some s ->
  s = success ∨ (s = faiss_inner_error ∧ ∃ i e, outs !! i = Some (Some e)).
Proof.
  intros Hret. destruct (invariant_run outs evs) as [_ _ _ _ He Hst].
  destruct (Hst s Hret) as [->| ->]; [by left|right]. split; [done|].
  destruct (He Hret) as (e & Ho & _). eauto.
Qed.

Lemma get_after_return outs st m :
  is_Some (returned st) -> foldl (step outs) st (replicate m Get) = st.
Proof.
  intros [s Hs]. induction m as [|m IH]; cbn; [done|]. by rewrite Hs.
Qed.

Lemma complete_prefix outs st m :
  let st' := foldl (step outs) st (Complete <$> seq 0 m) in
  joined st' = joined st ∧ returned st' = returned st
  ∧ length (completed st') = length (completed st)
  ∧ ∀ i, i < m -> i < length (completed st) -> completed st' !! i = Some true.
Proof.
  induction m as [|m IH]; cbn zeta.
  - split_and!; try done. lia.
  - rewrite seq_S, fmap_app, foldl_app. cbn.
    destruct IH as (Hj & Hr & Hl & Hc). split_and!; try done.
    + by rewrite length_insert.
    + intros i Hi Hlen. destruct (decide (i = m)) as [->|Hne].
      * apply list_lookup_insert_eq. lia.
      * rewrite list_lookup_insert_ne by done. apply Hc; lia.
Qed.

Lemma collect outs m : ∀ st,
  returned st = None ->
  joined st + m = length outs ->
  (∀ i, i < length outs -> completed st !! i = Some true) ->
  returned (foldl (step outs) st (replicate (S m) Get))
  = Some (if existsb (fun o => bool_decide (is_Some o)) (drop (joined st) outs)
          then faiss_inner_error else success).
Proof.
  induction m as [|m IH]; intros [cs j r] Hret Hjm Hdone; cbn in Hret, Hjm, Hdone;
    subst r; cbn [replicate foldl step returned joined completed].
  - rewrite lookup_ge_None_2 by lia. cbn. by rewrite drop_ge by lia.
  - destruct (outs !! j) as [o|] eqn:Ho.
    2:{ apply lookup_ge_None in Ho. lia. }
    rewrite Hdone by lia. rewrite (drop_S _ _ _ Ho). cbn [existsb].
    destruct o as [e|].
    + rewrite get_after_return by (cbn; eauto). done.
    + apply (IH {| completed := cs; joined := S j; returned := None |});
        cbn; [done|lia|done].
Qed.

(** When every task completes before the caller collects, the call reports
    [faiss_inner_error] if some task threw and goes on to build its result
    otherwise: the status of [Search] and [RangeSearch]. *)
Lemma drain_status {A} (outs : list (exn + A)) :
  returned (run (delivered <$> outs) (drain (length outs)))
  = Some (if existsb Flat.raised outs then faiss_inner_error else success).
Proof.
  unfold run, drain. rewrite length_fmap, foldl_app.
  destruct (complete_prefix (delivered <$> outs) (init (length outs)) (length outs))
    as (Hj & Hr & Hl & Hc).
  cbn in Hl. rewrite length_replicate in Hl.
  rewrite collect; rewrite ?Hj, ?length_fmap; cbn; try done.
  - rewrite drop_0. f_equal. clear.
    assert (existsb (fun o : option exn => bool_decide (is_Some o)) (delivered <$> outs)
            = existsb Flat.raised outs) as ->; [|done].
    induction outs as [|[e|a] outs IH]; cbn; [done..|]. apply IH.
  - intros i Hi. apply Hc; [done|]. cbn. by rewrite length_replicate.
Qed.
(** Whenever the first task throws and completes first, the call is over
    before the second task has run to its end. *)
Lemma first_task_throws outs e :
  outs !! 0 = Some (Some e) -> 1 < length outs ->
  let st := run outs [Complete 0; Get] in
  returned st = Some faiss_inner_error ∧ completed st !! 1 = Some false.
Proof.
  destruct outs as [|o [|o' outs]]; cbn; try lia. intros [= ->] _. done.
Qed.

(** C2, on the join loop. Two tasks, the first of which throws: once the first
    task has completed, the caller's [get()] rethrows, the handler returns
    [faiss_inner_error], and the second task has not run to its end. *)
Theorem join_returns_before_all_tasks_complete :
  let st := run [Some "Error: 'k > 0' failed"%string; None] [Complete 0; Get] in
  returned st = Some faiss_inner_error
  ∧ completed st = [true; false]
  ∧ ¬ all_completed st.
Proof.
  cbn. split_and!; [done..|].
  unfold all_completed. cbn. by intros [_ [[=] _]%Forall_cons]%Forall_cons.
Qed.

End ExecutorFacts.

(** ** Output slots of [Search] *)

Section Slots.
Context {A : Type}.
Implicit Types (l vs : list A).
Local Open Scope nat_scope.

Lemma lookup_inserts l vs off p :
  list_inserts off vs l !! p
  = if decide (off <= p < off + length vs ∧ p < length l)
    then vs !! (p - off) else l !! p.
Proof.
  case_decide as Hin.
  - destruct Hin. by apply list_lookup_inserts.
  - destruct (decide (p < off)); [by apply list_lookup_inserts_lt|].
    destruct (decide (off + length vs <= p)); [by apply list_lookup_inserts_ge|].
    rewrite !lookup_ge_None_2; rewrite ?length_inserts; auto with lia.
Qed.

(** Stores to disjoint ranges commute. *)
Lemma list_inserts_commute l vs1 vs2 o1 o2 :
  o1 + length vs1 <= o2 ∨ o2 + length vs2 <= o1 ->
  list_inserts o1 vs1 (list_inserts o2 vs2 l)
  = list_inserts o2 vs2 (list_inserts o1 vs1 l).
Proof.
  intros Hdisj. apply list_eq. intros p.
  rewrite !lookup_inserts, !length_inserts.
  repeat case_decide; try done; lia.
Qed.

Lemma slot_inserts_same n i vs l :
  length vs = n -> n * i + n <= length l ->
  slot n i (list_inserts (n * i) vs l) = vs.
Proof.
  intros Hvs Hl. apply list_eq. intros p. unfold slot.
  destruct (decide (p < n)) as [Hp|Hp].
  - rewrite lookup_take_lt, lookup_drop, lookup_inserts by done.
    rewrite decide_True by lia. f_equal. lia.
  - rewrite lookup_take_ge by lia. symmetry. apply lookup_ge_None. lia.
Qed.

Lemma slot_inserts_other n i j vs l :
  length vs = n -> i ≠ j ->
  slot n i (list_inserts (n * j) vs l) = slot n i l.
Proof.
  intros Hvs Hij. apply list_eq. intros p. unfold slot.
  destruct (decide (p < n)) as [Hp|Hp].
  - rewrite !lookup_take_lt, !lookup_drop, lookup_inserts by done.
    rewrite decide_False; [done|]. nia.
  - by rewrite !lookup_take_ge by lia.
Qed.

End Slots.

Section SearchSlots.
Context {F : Faiss} (HC : KernelContract F).
Variable T : IndexKind.
Local Open Scope nat_scope.

(** A task that returns has filled exactly [k] cells of each array. *)
Lemma search_task_fills ix x k bitset i hs :
  Flat.search_task T ix x k bitset i = Returns (inr hs) ->
  Z.of_nat (length hs) = k.
Proof.
  unfold Flat.search_task. destruct (read_span _ _ _) as [q| |]; try done. cbn.
  destruct T.
  - destruct (index_search _ _ _ _) as [e|hs0] eqn:Hs; intros [= <-].
    rewrite length_fmap. by eapply search_fills.
  - destruct (index_search_binary _ _ _ _) as [e|hs0] eqn:Hs; intros [= <-].
    destruct (MetricType_eqb _ _); rewrite length_fmap; by eapply search_binary_fills.
Qed.

Lemma slots_disjoint n i j : i ≠ j -> n * i + n <= n * j ∨ n * j + n <= n * i.
Proof. nia. Qed.

Lemma length_nat {A} (l : list A) (k : Z) :
  Z.of_nat (length l) = k -> length l = Z.to_nat k.
Proof. lia. Qed.

Lemma offset_nat k i : (0 <= k)%Z -> Z.to_nat (k * Z.of_nat i) = Z.to_nat k * i.
Proof. intros Hk. rewrite Z2Nat.inj_mul, Nat2Z.id; lia. Qed.

(** The stores of the task of row [i] all fall into slot [i]: every cell
    outside [k * i .. k * i + k - 1] of either array keeps its content. *)
Lemma write_slot_footprint k i hs b p :
  Z.of_nat (length hs) = k ->
  p < Z.to_nat k * i ∨ Z.to_nat k * i + Z.to_nat k <= p ->
  Flat.ids (Flat.write_slot k i (inr hs) b) !! p = Flat.ids b !! p
  ∧ Flat.dis (Flat.write_slot k i (inr hs) b) !! p = Flat.dis b !! p.
Proof.
  intros Hk Hp. cbn. rewrite offset_nat by lia.
  assert (Hn : Z.to_nat k = length hs) by lia. rewrite Hn in *.
  rewrite !lookup_inserts, !length_fmap.
  split; (rewrite decide_False; [done|lia]).
Qed.

Lemma write_slot_commute k i j o1 o2 b :
  i ≠ j ->
  (∀ hs, o1 = inr hs -> Z.of_nat (length hs) = k) ->
  (∀ hs, o2 = inr hs -> Z.of_nat (length hs) = k) ->
  Flat.write_slot k i o1 (Flat.write_slot k j o2 b)
  = Flat.write_slot k j o2 (Flat.write_slot k i o1 b).
Proof.
  intros Hij H1 H2. destruct o1 as [e1|hs1], o2 as [e2|hs2]; try done.
  specialize (H1 _ eq_refl). specialize (H2 _ eq_refl). cbn.
  rewrite !offset_nat by lia.
  assert (Hn1 : length hs1 = Z.to_nat k) by lia.
  assert (Hn2 : length hs2 = Z.to_nat k) by lia.
  f_equal; apply list_inserts_commute; rewrite !length_fmap, Hn1, Hn2;
    by apply slots_disjoint.
Qed.

(** The arrays do not depend on the order in which the tasks complete. *)
Lemma run_tasks_permutation k outs s1 s2 b :
  (∀ i hs, outs !! i = Some (inr hs) -> Z.of_nat (length hs) = k) ->
  s1 ≡ₚ s2 ->
  Flat.run_tasks k outs s1 b = Flat.run_tasks k outs s2 b.
Proof.
  intros Hk Hperm. revert b.
  induction Hperm as [|i s1 s2 _ IH|i j s|s1 s2 s3 _ IH1 _ IH2]; intros b; cbn.
  - done.
  - apply IH.
  - f_equal. destruct (decide (i = j)) as [->|Hij]; [done|].
    destruct (outs !! i) as [oi|] eqn:Hi, (outs !! j) as [oj|] eqn:Hj; try done.
    apply write_slot_commute; [done|intros ? ->; eauto..].
  - by rewrite IH1.
Qed.

Lemma run_tasks_length k outs s b :
  length (Flat.ids (Flat.run_tasks k outs s b)) = length (Flat.ids b)
  ∧ length (Flat.dis (Flat.run_tasks k outs s b)) = length (Flat.dis b).
Proof.
  revert b. induction s as [|i s IH]; intros b; cbn; [done|].
  destruct (IH (match outs !! i with
                | Some out => Flat.write_slot k i out b | None => b end)) as [-> ->].
  destruct (outs !! i) as [[e|hs]|]; cbn; by rewrite ?length_inserts.
Qed.

(** Slot [i] is left alone by the tasks of the other rows ... *)
Lemma run_tasks_slot_other k rows s b i :
  (∀ j hs, rows !! j = Some hs -> Z.of_nat (length hs) = k) ->
  i ∉ s ->
  slot (Z.to_nat k) i (Flat.ids (Flat.run_tasks k (inr <$> rows) s b))
    = slot (Z.to_nat k) i (Flat.ids b)
  ∧ slot (Z.to_nat k) i (Flat.dis (Flat.run_tasks k (inr <$> rows) s b))
    = slot (Z.to_nat k) i (Flat.dis b).
Proof.
  intros Hk. revert b. induction s as [|j s IH]; intros b Hi; cbn; [done|].
  apply not_elem_of_cons in Hi as [Hij His].
  destruct (IH (match (inr <$> rows) !! j with
                | Some out => Flat.write_slot k j out b | None => b end) His) as [-> ->].
  rewrite list_lookup_fmap. destruct (rows !! j) as [hs|] eqn:Hj; [|done]. cbn.
  specialize (Hk _ _ Hj). rewrite offset_nat by lia.
  split; apply slot_inserts_other; rewrite ?length_fmap; auto using length_nat.
Qed.

(** ... and holds the pairs of row [i] once the task of row [i] has run. *)
Lemma run_tasks_slot k rows s b i hs :
  (∀ j hs, rows !! j = Some hs -> Z.of_nat (length hs) = k) ->
  rows !! i = Some hs -> i ∈ s ->
  Z.to_nat k * i + Z.to_nat k <= length (Flat.ids b) ->
  Z.to_nat k * i + Z.to_nat k <= length (Flat.dis b) ->
  slot (Z.to_nat k) i (Flat.ids (Flat.run_tasks k (inr <$> rows) s b)) = Some <$> hs.*1
  ∧ slot (Z.to_nat k) i (Flat.dis (Flat.run_tasks k (inr <$> rows) s b)) = Some <$> hs.*2.
Proof.
  intros Hk Hi. revert b. induction s as [|j s IH]; intros b His Hids Hdis.
  { by apply elem_of_nil in His. }
  cbn [Flat.run_tasks].
  destruct (decide (i ∈ s)) as [Hin|Hnotin].
  - apply IH; [done|..]; rewrite list_lookup_fmap;
      destruct (rows !! j); cbn; by rewrite ?length_inserts.
  - apply elem_of_cons in His as [->|]; [|done].
    rewrite list_lookup_fmap, Hi. cbn [fmap option_fmap option_map].
    destruct (run_tasks_slot_other k rows s
                (Flat.write_slot k j (inr hs) b) j Hk Hnotin) as [-> ->].
    pose proof (length_nat _ _ (Hk _ _ Hi)) as Hn.
    cbn. rewrite offset_nat by (specialize (Hk _ _ Hi); lia).
    split; apply slot_inserts_same; by rewrite ?length_fmap.
Qed.

End SearchSlots.

Section SearchRows.
Context {F : Faiss} (HC : KernelContract F).
Local Open Scope nat_scope.

(** What a successful [Search] is made of. *)
Lemma search_success T σ node ds cfg bitset nq kk ids dis :
  Flat.Search T false σ node ds cfg bitset = Returns (value (TopK nq kk ids dis)) ->
  ∃ ix rows,
    deref σ (Flat.index_ node) = Returns ix
    ∧ nq = GetRows ds ∧ (0 <= nq)%Z ∧ kk = k cfg
    ∧ mapM (Flat.search_task T ix (GetTensor ds) kk bitset) (seq 0 (Z.to_nat nq))
      = Returns (inr <$> rows)
    ∧ ids = Flat.ids (Flat.run_tasks kk (inr <$> rows) (seq 0 (Z.to_nat nq))
                        (Flat.fresh_buffers (kk * nq)))
    ∧ dis = Flat.dis (Flat.run_tasks kk (inr <$> rows) (seq 0 (Z.to_nat nq))
                        (Flat.fresh_buffers (kk * nq))).
Proof.
  unfold Flat.Search. intros Hs.
  destruct (Flat.index_ node) as [l|] eqn:Hl; [|done].
  destruct (deref σ (Some l)) as [ix| |] eqn:Hix; try done. cbn in Hs.
  destruct (GetRows ds <? 0)%Z eqn:Hneg; [done|]. apply Z.ltb_ge in Hneg.
  destruct (INT_MAX <? GetRows ds)%Z eqn:Hbig; [done|].
  destruct (mapM _ _) as [outs| |] eqn:Houts; try done. cbn in Hs.
  destruct (existsb Flat.raised outs) eqn:Hraised; [done|].
  injection Hs as <- <- <- <-.
  exists ix, (Flat.finished outs). rewrite <- finished_all by done.
  by split_and!.
Qed.

Lemma rows_filled T ix x kk bitset l (rows : list (list (hit cell32))) :
  mapM (Flat.search_task T ix x kk bitset) l = Returns (inr <$> rows) ->
  ∀ j hs, rows !! j = Some hs -> Z.of_nat (length hs) = kk.
Proof.
  intros Hrows j hs Hj. apply mapM_exec_Returns in Hrows.
  assert (Hout : (inr (A := exn) <$> rows) !! j = Some (inr hs))
    by (by rewrite list_lookup_fmap, Hj).
  destruct (Forall2_lookup_r _ _ _ _ _ Hrows Hout) as (i & _ & Htask).
  by eapply search_task_fills.
Qed.

(** The result of a successful [Search] is the same for every order in which
    the tasks complete. *)
Lemma search_any_completion_order T σ node ds cfg bitset nq kk ids dis :
  Flat.Search T false σ node ds cfg bitset = Returns (value (TopK nq kk ids dis)) ->
  ∃ outs,
    ∀ sched, sched ≡ₚ seq 0 (Z.to_nat nq) ->
      ids = Flat.ids (Flat.run_tasks kk outs sched (Flat.fresh_buffers (kk * nq)))
      ∧ dis = Flat.dis (Flat.run_tasks kk outs sched (Flat.fresh_buffers (kk * nq))).
Proof.
  intros (ix & rows & _ & _ & _ & _ & Hrows & -> & ->)%search_success.
  exists (inr <$> rows). intros sched Hperm.
  rewrite (run_tasks_permutation kk _ sched (seq 0 (Z.to_nat nq))); [done| |done].
  intros i hs Hi. rewrite list_lookup_fmap in Hi.
  destruct (rows !! i) as [hs'|] eqn:Hrow; [|done]. injection Hi as ->.
  by eapply rows_filled.
Qed.

(** Slot [i] of a successful [Search] holds what the task of row [i] stored. *)
Lemma search_slot T σ node ds cfg bitset nq kk ids dis i :
  Flat.Search T false σ node ds cfg bitset = Returns (value (TopK nq kk ids dis)) ->
  i < Z.to_nat nq ->
  ∃ ix hs,
    deref σ (Flat.index_ node) = Returns ix
    ∧ Flat.search_task T ix (GetTensor ds) kk bitset i = Returns (inr hs)
    ∧ slot (Z.to_nat kk) i ids = Some <$> hs.*1
    ∧ slot (Z.to_nat kk) i dis = Some <$> hs.*2.
Proof.
  intros (ix & rows & Hix & -> & Hnq & -> & Hrows & -> & ->)%search_success Hi.
  destruct (mapM_exec_lookup _ _ _ i i Hrows) as (out & Hout & Htask).
  { by apply lookup_seq_lt. }
  rewrite list_lookup_fmap in Hout.
  destruct (rows !! i) as [hs|] eqn:Hrow; [|done]. injection Hout as <-.
  pose proof (rows_filled _ _ _ _ _ _ _ Hrows) as Hk.
  pose proof (Hk _ _ Hrow) as Hlen.
  exists ix, hs. split_and!; try done.
  all: apply (run_tasks_slot (k cfg) rows); try done.
  all: try (apply elem_of_seq; lia).
  all: cbn; rewrite length_replicate, Z2Nat.inj_mul by lia; nia.
Qed.

(** On the float variant the task of row [i] searches for row [i]: the slot
    is determined by the instance, [k], the bitset and that one row. *)
Lemma flat_search_slot_of_row σ node ds cfg bitset nq kk ids dis i :
  Flat.Search IndexFlat false σ node ds cfg bitset
    = Returns (value (TopK nq kk ids dis)) ->
  i < Z.to_nat nq ->
  ∃ ix q hs,
    deref σ (Flat.index_ node) = Returns ix
    ∧ query_row IndexFlat (GetTensor ds) (index_d ix) i = Returns q
    ∧ index_search ix q kk bitset = inr hs
    ∧ slot (Z.to_nat kk) i ids = Some <$> hs.*1
    ∧ slot (Z.to_nat kk) i dis = Some ∘ F32 <$> hs.*2.
Proof.
  intros Hs Hi.
  destruct (search_slot _ _ _ _ _ _ _ _ _ _ i Hs Hi) as (ix & hs & Hix & Htask & Hids & Hdis).
  unfold Flat.search_task in Htask. cbn [row_elems] in Htask.
  destruct (read_span _ _ _) as [q| |] eqn:Hq; try done. cbn in Htask.
  destruct (index_search _ _ _ _) as [e|hs0] eqn:Hker; [done|].
  injection Htask as <-. exists ix, q, hs0. split_and!; try done.
  - rewrite Hids, <- !list_fmap_compose. by apply list_fmap_ext; intros ? [].
  - rewrite Hdis, <- !list_fmap_compose. by apply list_fmap_ext; intros ? [].
Qed.

(** Two batches given to the same float node: wherever a row of the one
    equals a row of the other, the two slots are equal. *)
Lemma flat_search_rows_agree σ node cfg bitset ds1 ds2
    nq1 kk1 ids1 dis1 nq2 kk2 ids2 dis2 i1 i2 ix :
  Flat.Search IndexFlat false σ node ds1 cfg bitset
    = Returns (value (TopK nq1 kk1 ids1 dis1)) ->
  Flat.Search IndexFlat false σ node ds2 cfg bitset
    = Returns (value (TopK nq2 kk2 ids2 dis2)) ->
  i1 < Z.to_nat nq1 -> i2 < Z.to_nat nq2 ->
  deref σ (Flat.index_ node) = Returns ix ->
  query_row IndexFlat (GetTensor ds1) (index_d ix) i1
    = query_row IndexFlat (GetTensor ds2) (index_d ix) i2 ->
  slot (Z.to_nat kk1) i1 ids1 = slot (Z.to_nat kk2) i2 ids2
  ∧ slot (Z.to_nat kk1) i1 dis1 = slot (Z.to_nat kk2) i2 dis2.
Proof.
  intros Hs1 Hs2 Hi1 Hi2 Hix Hrow.
  pose proof Hs1 as (? & ? & _ & _ & _ & -> & _)%search_success.
  pose proof Hs2 as (? & ? & _ & _ & _ & -> & _)%search_success.
  destruct (flat_search_slot_of_row _ _ _ _ _ _ _ _ _ _ Hs1 Hi1)
    as (ix1 & q1 & hs1 & Hix1 & Hq1 & Hk1 & -> & ->).
  destruct (flat_search_slot_of_row _ _ _ _ _ _ _ _ _ _ Hs2 Hi2)
    as (ix2 & q2 & hs2 & Hix2 & Hq2 & Hk2 & -> & ->).
  assert (ix1 = ix) as -> by congruence. assert (ix2 = ix) as -> by congruence.
  assert (q1 = q2) as -> by congruence.
  assert (hs1 = hs2) as -> by congruence. done.
Qed.

(** On the binary variant the operand of the task of row [i] starts [i * d]
    bytes into the tensor, where a row takes [d / 8] bytes: the task searches
    for row [8 * i]. *)
Lemma binary_task_operand x d i :
  (d mod 8 = 0)%Z ->
  read_span x (Z.of_nat i * d) (row_elems IndexBinaryFlat d)
  = query_row IndexBinaryFlat x d (8 * i).
Proof.
  intros Hd. unfold query_row. cbn [row_elems]. f_equal.
  rewrite Nat2Z.inj_mul. pose proof (Z.div_mod d 8 ltac:(lia)). nia.
Qed.

End SearchRows.

(** C1, on the binary variant. A node over 8-bit vectors is given a
    well-formed batch of two one-byte queries: the task of row 1 reads at byte
    8 of the two-byte tensor.  In a batch of nine queries row 1 is the byte
    11 and row 8 the last byte; the task of row 1 returns what the backend
    finds for row 8, and changing row 8 alone changes slot 1. *)
Theorem binary_search_slot_follows_other_row :
  Flat.Search (F := Toy.faiss) IndexBinaryFlat false toy_bin_store toy_node
    toy_bin_ds2 toy_bin_cfg [] = Undef
  ∧ query_row IndexBinaryFlat (GetTensor (toy_bin_ds9 18)) 8 1 = Returns [11]
  ∧ query_row IndexBinaryFlat (GetTensor (toy_bin_ds9 18)) 8 8 = Returns [18]
  ∧ Flat.search_task (F := Toy.faiss) IndexBinaryFlat toy_bin_index
      (GetTensor (toy_bin_ds9 18)) 1 [] 1
    = Returns (inr [(0, F32 (float_of_int32 18))])
  ∧ Flat.search_task (F := Toy.faiss) IndexBinaryFlat toy_bin_index
      (GetTensor (toy_bin_ds9 40)) 1 [] 1
    = Returns (inr [(0, F32 (float_of_int32 40))]).
Proof. split_and!; vm_compute; reflexivity. Qed.

(** The float node on a batch of two rows, for comparison: both slots are
    filled, each from its own row. *)
Example flat_search_two_rows :
  Flat.Search (F := Toy.faiss) IndexFlat false toy_store toy_node toy_ds2
    {| metric_type := "L2"; k := 1; radius := float_of_int32 4;
       range_filter := float_of_int32 2 |} []
  = Returns (value (TopK 2 1 [Some 0; Some 0]
                      [Some (F32 (float_of_int32 5)); Some (F32 (float_of_int32 9))])).
Proof. vm_compute. reflexivity. Qed.

(** * Further properties *)

(** ** The small backend honours the further contracts *)

Lemma toy_gpu_train : GpuTrainContract Toy.faiss Toy.gpu Toy.trainer.
Proof.
  split.
  - intros res c ix. cbn. case_match; [done|]. by intros [= <-].
  - intros n x ix ix'. cbn. case_match; [done|]. by intros [= <-].
  - done.
Qed.

Lemma toy_gpu_kernel : GpuKernelContract Toy.faiss Toy.gpu.
Proof.
  split. intros ix q n k bs hs. cbn. case_match eqn:Hok; [done|]. intros [= <-].
  apply orb_false_elim in Hok as [Hk%Z.ltb_ge Hn%Z.ltb_ge].
  rewrite length_fmap, length_seq. nia.
Qed.

Lemma toy_gpu_add_failure : GpuAddFailureContract Toy.faiss Toy.gpu.
Proof. by split. Qed.

Lemma toy_transfer : TransferContract Toy.faiss Toy.gpu.
Proof. split; cbn; by intros; simplify_eq. Qed.

(** ** The flat node: failed calls, ownership *)

Section FlatState.
Context {F : Faiss}.
Variable T : IndexKind.

(** X1. An [Add] or a [Build] of the flat node that returns a status other
    than [success] has changed neither the store nor the node. *)
Theorem flat_add_error_keeps_state nomem σ node ds cfg s σ' node' :
  Flat.Add T nomem σ node ds cfg = Returns (s, σ', node')
  ∨ Flat.Build T nomem σ node ds cfg = Returns (s, σ', node') ->
  s ≠ success ->
  σ' = σ ∧ node' = node.
Proof.
  intros Hadd Hs.
  assert (Hret : Flat.Add T nomem σ node ds cfg = Returns (s, σ', node'))
    by (destruct Hadd as [H|H]; exact H).
  clear Hadd. unfold Flat.Add in Hret.
  destruct (Str2FaissMetricType _) as [metric|e]; [|by injection Hret as <- <- <-].
  destruct nomem; [by injection Hret as <- <- <-|].
  destruct (Flat.index_ node) as [old|]; cbn in Hret.
  - unfold delete_index in Hret. destruct (σ !! old); [|done]. cbn in Hret.
    destruct (index_add _ _ _); [done|]. by injection Hret as <- _ _.
  - destruct (index_add _ _ _); [done|]. by injection Hret as <- _ _.
Qed.

(** The node owns at most one instance on top of a base store. *)
Lemma owns_call σ0 c σ node s σ' node' :
  Flat.owns σ0 σ node ->
  Flat.do_call T c σ node = Returns (s, σ', node') ->
  Flat.owns σ0 σ' node'.
Proof.
  intros Hown Hcall.
  assert (Hfresh : ∀ l ix, σ0 !! l = None -> σ = <[l := ix]> σ0 ->
                   σ0 !! fresh (dom σ) = None ∧ fresh (dom σ) ≠ l).
  { intros l ix Hl ->. pose proof (is_fresh (dom (<[l := ix]> σ0))) as Hf.
    set (l' := fresh _) in *. rewrite dom_insert_L in Hf.
    split; [apply not_elem_of_dom|]; set_solver. }
  assert (Hadd : ∀ nomem ds cfg,
             Flat.Add T nomem σ node ds cfg = Returns (s, σ', node') ->
             Flat.owns σ0 σ' node').
  { intros nomem ds cfg Hret. unfold Flat.Add in Hret.
    destruct (Str2FaissMetricType _) as [metric|e]; [|by injection Hret as <- <- <-].
    destruct nomem; [by injection Hret as <- <- <-|].
    destruct Hown as [[Hn ->]|(l & ix & Hn & Hl & ->)]; rewrite Hn in Hret; cbn in Hret.
    - destruct (index_add _ _ _) as [|ix']; [done|]. injection Hret as <- <- <-.
      right. eexists _, ix'. split_and!; [done| |done].
      apply not_elem_of_dom, is_fresh.
    - unfold delete_index in Hret. rewrite lookup_insert_eq in Hret. cbn in Hret.
      destruct (index_add _ _ _) as [|ix']; [done|]. injection Hret as <- <- <-.
      destruct (Hfresh l ix Hl eq_refl) as [Hf Hne].
      right. eexists _, ix'. split_and!; [done|done|].
      by rewrite delete_insert_id. }
  destruct c as [nomem ds cfg|nomem ds cfg|binset]; cbn in Hcall.
  - by eapply Hadd.
  - eapply Hadd. exact Hcall.
  - unfold Flat.Deserialize in Hcall.
    assert (Hσ1 : match Flat.index_ node with
                  | Some old => delete_index σ old
                  | None => mret σ
                  end = Returns σ0).
    { destruct Hown as [[-> ->]|(l & ix & -> & Hl & ->)]; [done|].
      unfold delete_index. rewrite lookup_insert_eq. by rewrite delete_insert_id. }
    rewrite Hσ1 in Hcall. cbn in Hcall.
    destruct (GetByName _ _); [|done].
    destruct (read_index _) as [|ix']; [done|]. injection Hcall as <- <- <-.
    right. eexists _, ix'. split_and!; [done| |done].
    apply not_elem_of_dom, is_fresh.
Qed.

Lemma owns_calls σ0 cs : ∀ σ node σ' node',
  Flat.owns σ0 σ node ->
  Flat.do_calls T cs σ node = Returns (σ', node') ->
  Flat.owns σ0 σ' node'.
Proof.
  induction cs as [|c cs IH]; intros σ node σ' node' Hown Hrun; cbn in Hrun.
  - by injection Hrun as <- <-.
  - destruct (Flat.do_call T c σ node) as [[[s σ1] node1]| |] eqn:Hc; try done.
    cbn in Hrun. eapply IH; [|done]. by eapply owns_call.
Qed.

(** X2. A flat node does not leak backend instances: after any sequence of
    [Add], [Build] and [Deserialize] calls that return, on a node that
    started empty, the destructor leaves the store exactly as it was before
    the first call. *)
Theorem flat_node_never_leaks cs σ0 σ node :
  Flat.do_calls T cs σ0 flat_empty = Returns (σ, node) ->
  Flat.destructor σ node = Returns σ0.
Proof.
  intros Hrun. assert (Hown : Flat.owns σ0 σ node).
  { eapply owns_calls; [|done]. by left. }
  unfold Flat.destructor.
  destruct Hown as [[-> ->]|(l & ix & -> & Hl & ->)]; [done|].
  unfold delete_index. rewrite lookup_insert_eq. by rewrite delete_insert_id.
Qed.

End FlatState.

(** A call to [Add] in which the allocation of the new instance fails. *)
Lemma flat_add_error_keeps_state_witness :
  Flat.Add (F := Toy.faiss) IndexFlat true toy_store toy_node toy_ds2 toy_cfg
    = Returns (malloc_error, toy_store, toy_node)
  ∧ toy_store = toy_store ∧ toy_node = toy_node.
Proof.
  split; [reflexivity|].
  apply (flat_add_error_keeps_state (F := Toy.faiss) IndexFlat true toy_store
           toy_node toy_ds2 toy_cfg malloc_error); [left; reflexivity|discriminate].
Defined.

(** A fresh node is built, receives a second dataset and is then read from a
    blob: the destructor leaves the empty store the node started from. *)
Lemma flat_node_never_leaks_witness :
  Flat.destructor (F := Toy.faiss) {[ 1%positive := toy_index [7] ]}
    {| Flat.index_ := Some 1%positive |}
  = Returns ∅.
Proof.
  apply (flat_node_never_leaks (F := Toy.faiss) IndexFlat toy_calls ∅).
  reflexivity.
Defined.

(** ** The flat node: what a round trip through a blob preserves *)

Section FlatRoundTripMore.
Context {F : Faiss} {R : RangeUtil} {RC : FaissReconstruct F}.
Context (HC : CodecContract F).
Variable T : IndexKind.

Lemma round_trip_instance σ node binset binset' σ0 :
  Flat.Serialize T σ node binset = Returns (success, binset') ->
  ∃ σ' l' l ix,
    Flat.Deserialize T σ0 flat_empty binset'
      = Returns (success, σ', {| Flat.index_ := Some l' |})
    ∧ σ' !! l' = Some ix
    ∧ Flat.index_ node = Some l ∧ σ !! l = Some ix.
Proof.
  unfold Flat.Serialize. intros Hser.
  destruct (Flat.index_ node) as [l|] eqn:Hl; [|done].
  unfold deref in Hser. destruct (σ !! l) as [ix|] eqn:Hix; [|done]. cbn in Hser.
  destruct (write_index ix) as [e|bytes] eqn:Hw; [done|].
  injection Hser as <-.
  unfold Flat.Deserialize, GetByName, Append. cbn.
  rewrite lookup_insert_eq, reader_bytes_appended, (read_write_index _ _ Hw).
  eexists _, _, l, ix. split_and!; try done. by rewrite lookup_insert_eq.
Qed.

(** X3. When [Serialize] succeeds on a flat or binary-flat node and the
    container is read back into a fresh node, the new node answers [Count],
    [Dim], [RangeSearch] and [GetVectorByIds] as the original does, and
    [Serialize] on the new node writes the same container again. *)
Theorem flat_round_trip_preserves_answers σ node binset binset' σ0 :
  Flat.Serialize T σ node binset = Returns (success, binset') ->
  ∃ σ' node',
    Flat.Deserialize T σ0 flat_empty binset' = Returns (success, σ', node')
    ∧ Flat.Count σ' node' = Flat.Count σ node
    ∧ Flat.Dim σ' node' = Flat.Dim σ node
    ∧ (∀ ds cfg bitset,
         Flat.RangeSearch T σ' node' ds cfg bitset
         = Flat.RangeSearch T σ node ds cfg bitset)
    ∧ (∀ nomem ds cfg,
         Flat.GetVectorByIds T nomem σ' node' ds cfg
         = Flat.GetVectorByIds T nomem σ node ds cfg)
    ∧ Flat.Serialize T σ' node' binset = Returns (success, binset').
Proof.
  intros Hser.
  destruct (round_trip_instance _ _ _ _ σ0 Hser) as (σ' & l' & l & ix & Hde & Hl' & Hl & Hix).
  exists σ', {| Flat.index_ := Some l' |}. split; [done|].
  assert (Hd' : deref σ' (Some l') = Returns ix) by (by cbn; rewrite Hl').
  assert (Hd : deref σ (Flat.index_ node) = Returns ix) by (by rewrite Hl; cbn; rewrite Hix).
  split_and!.
  - unfold Flat.Count. cbn [Flat.index_]. by rewrite Hd', Hd.
  - unfold Flat.Dim. cbn [Flat.index_]. by rewrite Hd', Hd.
  - intros. unfold Flat.RangeSearch. cbn [Flat.index_]. by rewrite Hd', Hd, Hl.
  - intros. unfold Flat.GetVectorByIds. cbn [Flat.index_]. by rewrite Hd', Hd.
  - rewrite <- Hser. unfold Flat.Serialize. cbn [Flat.index_]. by rewrite Hd', Hd, Hl.
Qed.

End FlatRoundTripMore.

(** The node with three vectors, serialized into an empty container and read
    back: the new node counts three vectors. *)
Lemma flat_round_trip_preserves_answers_witness :
  ∃ σ' node',
    Flat.Deserialize (F := Toy.faiss) IndexFlat ∅ flat_empty
      (Append "FLAT" [0; 1; 2; 1; 4; 6; 20] 7 ∅) = Returns (success, σ', node')
    ∧ Flat.Count σ' node' = Returns 3.
Proof.
  destruct (flat_round_trip_preserves_answers (F := Toy.faiss)
              (R := Toy.range_util) (RC := Toy.reconstructor) toy_codec
              IndexFlat toy_store toy_node ∅
              (Append "FLAT" [0; 1; 2; 1; 4; 6; 20] 7 ∅) ∅)
    as (σ' & node' & Hde & Hcount & _); [reflexivity|].
  exists σ', node'. split; [exact Hde|]. rewrite Hcount. reflexivity.
Defined.

(** ** The flat node: what [Search] returns *)

Section SearchResult.
Context {F : Faiss} (HC : KernelContract F).
Variable T : IndexKind.
Local Open Scope nat_scope.

(** X4. The two arrays of a successful [Search] have [k * nq] cells, and
    every cell has been written by a task: the caller never reads a cell
    that was only allocated. *)
Theorem search_result_fully_written σ node ds cfg bitset nq kk ids dis :
  Flat.Search T false σ node ds cfg bitset = Returns (value (TopK nq kk ids dis)) ->
  length ids = Z.to_nat (kk * nq)
  ∧ length dis = Z.to_nat (kk * nq)
  ∧ ∀ p, p < Z.to_nat (kk * nq) ->
      (∃ label, ids !! p = Some (Some label)) ∧ (∃ c, dis !! p = Some (Some c)).
Proof.
  intros Hs.
  pose proof Hs as (ix & rows & _ & -> & Hnq & -> & _ & Hids & Hdis)%search_success.
  assert (Hlens : length ids = Z.to_nat (k cfg * GetRows ds)
                  ∧ length dis = Z.to_nat (k cfg * GetRows ds)).
  { subst ids dis.
    destruct (run_tasks_length (k cfg) (inr <$> rows) (seq 0 (Z.to_nat (GetRows ds)))
                (Flat.fresh_buffers (k cfg * GetRows ds))) as [-> ->].
    cbn. by rewrite !length_replicate. }
  destruct Hlens as [Hli Hld]. split_and!; [done..|].
  intros p Hp. clear Hids Hdis.
  assert (Hk : (0 < k cfg)%Z).
  { destruct (decide (0 < k cfg)%Z) as [|Hle]; [done|].
    assert (k cfg * GetRows ds <= 0)%Z by nia. lia. }
  set (n := Z.to_nat (k cfg)). assert (Hn : 0 < n) by lia.
  assert (Hpn : p < n * Z.to_nat (GetRows ds)).
  { unfold n. rewrite <- Z2Nat.inj_mul by lia. done. }
  assert (Hi : p `div` n < Z.to_nat (GetRows ds)).
  { apply Nat.Div0.div_lt_upper_bound. lia. }
  destruct (search_slot HC T _ _ _ _ _ _ _ _ _ (p `div` n) Hs Hi)
    as (ix' & hs & _ & Htask & Hsi & Hsd).
  pose proof (search_task_fills HC T _ _ _ _ _ _ Htask) as Hlen.
  pose proof (Nat.div_mod_eq p n) as Hdm.
  pose proof (Nat.mod_upper_bound p n ltac:(lia)) as Hm.
  assert (Hlook : ∀ {A} (l : list A), slot n (p `div` n) l !! (p `mod` n) = l !! p).
  { intros A l. unfold slot. rewrite lookup_take_lt, lookup_drop by done.
    f_equal. lia. }
  split.
  - destruct (lookup_lt_is_Some_2 hs.*1 (p `mod` n)) as [label Hlabel].
    { rewrite length_fmap. lia. }
    exists label. rewrite <- Hlook. fold n in Hsi. rewrite Hsi.
    by rewrite list_lookup_fmap, Hlabel.
  - destruct (lookup_lt_is_Some_2 hs.*2 (p `mod` n)) as [c Hc].
    { rewrite length_fmap. lia. }
    exists c. rewrite <- Hlook. fold n in Hsd. rewrite Hsd.
    by rewrite list_lookup_fmap, Hc.
Qed.

(** X5. The per-row tasks of [Search] do not interfere: whatever the order in
    which they complete, a successful [Search] returns the same two arrays,
    and the stores of the task of row [i] leave every cell outside
    [k * i .. k * i + k - 1] as it was. *)
Theorem search_tasks_do_not_interfere σ node ds cfg bitset nq kk ids dis :
  Flat.Search T false σ node ds cfg bitset = Returns (value (TopK nq kk ids dis)) ->
  ∃ ix outs,
    deref σ (Flat.index_ node) = Returns ix
    ∧ mapM (Flat.search_task T ix (GetTensor ds) kk bitset) (seq 0 (Z.to_nat nq))
      = Returns outs
    ∧ (∀ sched, sched ≡ₚ seq 0 (Z.to_nat nq) ->
         ids = Flat.ids (Flat.run_tasks kk outs sched (Flat.fresh_buffers (kk * nq)))
         ∧ dis = Flat.dis (Flat.run_tasks kk outs sched (Flat.fresh_buffers (kk * nq))))
    ∧ ∀ i out b p,
        outs !! i = Some out ->
        p < Z.to_nat kk * i ∨ Z.to_nat kk * i + Z.to_nat kk <= p ->
        Flat.ids (Flat.write_slot kk i out b) !! p = Flat.ids b !! p
        ∧ Flat.dis (Flat.write_slot kk i out b) !! p = Flat.dis b !! p.
Proof.
  intros (ix & rows & Hix & -> & Hnq & -> & Hrows & -> & ->)%search_success.
  exists ix, (inr <$> rows). split_and!; [done..| |].
  - intros sched Hperm.
    rewrite (run_tasks_permutation (k cfg) _ sched (seq 0 (Z.to_nat (GetRows ds))));
      [done| |done].
    intros i hs Hi. rewrite list_lookup_fmap in Hi.
    destruct (rows !! i) as [hs'|] eqn:Hrow; [|done]. injection Hi as ->.
    by eapply (rows_filled HC).
  - intros i out b p Hi Hp. rewrite list_lookup_fmap in Hi.
    destruct (rows !! i) as [hs|] eqn:Hrow; [|done]. injection Hi as <-.
    apply write_slot_footprint; [|done]. by eapply (rows_filled HC).
Qed.

End SearchResult.

(** The float node with three vectors, a batch of two rows, [k = 1]. *)
Lemma search_result_fully_written_witness :
  ∃ ids dis,
    Flat.Search (F := Toy.faiss) IndexFlat false toy_store toy_node toy_ds2
      toy_cfg1 [] = Returns (value (TopK 2 1 ids dis))
    ∧ length ids = Z.to_nat (1 * 2)
    ∧ length dis = Z.to_nat (1 * 2)
    ∧ ∀ p, (p < Z.to_nat (1 * 2))%nat ->
        (∃ label, ids !! p = Some (Some label)) ∧ (∃ c, dis !! p = Some (Some c)).
Proof.
  eexists _, _. split; [vm_compute; reflexivity|].
  apply (search_result_fully_written (F := Toy.faiss) toy_kernel IndexFlat
           toy_store toy_node toy_ds2 toy_cfg1 []).
  vm_compute. reflexivity.
Defined.

(** The same search with the task of row 1 completing before that of row 0. *)
Lemma search_tasks_do_not_interfere_witness :
  ∃ outs,
    mapM (Flat.search_task (F := Toy.faiss) IndexFlat (toy_index [4; 6; 20])
            (GetTensor toy_ds2) 1 []) (seq 0 (Z.to_nat 2)) = Returns outs
    ∧ [Some 0; Some 0]
      = Flat.ids (Flat.run_tasks 1 outs [1; 0]%nat (Flat.fresh_buffers (1 * 2))).
Proof.
  destruct (search_tasks_do_not_interfere (F := Toy.faiss) toy_kernel IndexFlat
              toy_store toy_node toy_ds2 toy_cfg1 [] 2 1 [Some 0; Some 0]
              [Some (F32 (float_of_int32 5)); Some (F32 (float_of_int32 9))])
    as (ix & outs & Hix & Hm & Hsched & _); [vm_compute; reflexivity|].
  injection Hix as <-. exists outs. split; [exact Hm|].
  apply (Hsched [1; 0]%nat). apply perm_swap.
Defined.

(** ** The flat node: rows, errors and the stride of binary codes *)

Lemma mapM_exec_Undef {A B} (f : A -> exec B) l x :
  x ∈ l -> f x = Undef -> (∀ y e, y ∈ l -> f y ≠ Throws e) ->
  mapM f l = Undef.
Proof.
  induction l as [|a l IH]; intros Hin Hx Hno; [by apply elem_of_nil in Hin|].
  cbn. destruct (f a) as [v|e|] eqn:Ha; [|by destruct (Hno a e); [left|]|done].
  cbn. rewrite IH; [done| |done|].
  - apply elem_of_cons in Hin as [->|]; [congruence|done].
  - intros y e Hy. apply Hno. by right.
Qed.

Lemma mapM_exec_raised {A B} (f : A -> exec (exn + B)) l outs :
  mapM f l = Returns outs -> existsb Flat.raised outs = true ->
  ∃ i x e, l !! i = Some x ∧ f x = Returns (inl e).
Proof.
  intros Hm Hex. apply mapM_exec_Returns in Hm.
  apply existsb_exists in Hex as (out & Hin & Hr).
  apply list_elem_of_In, list_elem_of_lookup in Hin as [i Hi].
  destruct (Forall2_lookup_r _ _ _ _ _ Hm Hi) as (x & Hx & Hfx).
  destruct out as [e|]; [|done]. by exists i, x, e.
Qed.

Section FlatRows.
Context {F : Faiss} {R : RangeUtil} (HC : KernelContract F).
Local Open Scope nat_scope.

(** X6. On the float variant every slot of a successful [Search] is the
    backend's answer for that one row of the batch: slot [i] holds the labels
    and distances [index_->search] returns for row [i], [k] and the bitset. *)
Theorem flat_search_answers_each_row σ node ds cfg bitset nq kk ids dis i :
  Flat.Search IndexFlat false σ node ds cfg bitset
    = Returns (value (TopK nq kk ids dis)) ->
  i < Z.to_nat nq ->
  ∃ ix q hs,
    deref σ (Flat.index_ node) = Returns ix
    ∧ query_row IndexFlat (GetTensor ds) (index_d ix) i = Returns q
    ∧ index_search ix q kk bitset = inr hs
    ∧ Z.of_nat (length hs) = kk
    ∧ slot (Z.to_nat kk) i ids = Some <$> hs.*1
    ∧ slot (Z.to_nat kk) i dis = Some ∘ F32 <$> hs.*2.
Proof.
  intros Hs Hi.
  destruct (flat_search_slot_of_row HC _ _ _ _ _ _ _ _ _ _ Hs Hi)
    as (ix & q & hs & Hix & Hq & Hk & Hids & Hdis).
  exists ix, q, hs. split_and!; try done.
  by eapply search_fills.
Qed.

(** X7. The answer for a row does not depend on the batch it travels in:
    when two successful float searches on the same node have a row in common
    (at whatever positions), the two slots of that row are equal. *)
Theorem flat_search_row_independent_of_batch σ node cfg bitset ds1 ds2
    nq1 kk1 ids1 dis1 nq2 kk2 ids2 dis2 i1 i2 ix :
  Flat.Search IndexFlat false σ node ds1 cfg bitset
    = Returns (value (TopK nq1 kk1 ids1 dis1)) ->
  Flat.Search IndexFlat false σ node ds2 cfg bitset
    = Returns (value (TopK nq2 kk2 ids2 dis2)) ->
  i1 < Z.to_nat nq1 -> i2 < Z.to_nat nq2 ->
  deref σ (Flat.index_ node) = Returns ix ->
  query_row IndexFlat (GetTensor ds1) (index_d ix) i1
    = query_row IndexFlat (GetTensor ds2) (index_d ix) i2 ->
  slot (Z.to_nat kk1) i1 ids1 = slot (Z.to_nat kk2) i2 ids2
  ∧ slot (Z.to_nat kk1) i1 dis1 = slot (Z.to_nat kk2) i2 dis2.
Proof.
  intros Hs1 Hs2 Hi1 Hi2 Hix Hrow.
  exact (flat_search_rows_agree HC _ _ _ _ _ _ _ _ _ _ _ _ _ _ _ _ _ Hs1 Hs2 Hi1 Hi2 Hix Hrow).
Qed.

End FlatRows.

(** Row 1 of the batch of two rows is the vector 9. *)
Lemma flat_search_answers_each_row_witness :
  ∃ ids dis,
    Flat.Search (F := Toy.faiss) IndexFlat false toy_store toy_node toy_ds2
      toy_cfg1 [] = Returns (value (TopK 2 1 ids dis))
    ∧ ∃ ix q hs,
        deref (F := Toy.faiss) toy_store (Flat.index_ toy_node) = Returns ix
        ∧ query_row IndexFlat (GetTensor toy_ds2) (index_d ix) 1 = Returns q
        ∧ index_search ix q 1 [] = inr hs
        ∧ Z.of_nat (length hs) = 1
        ∧ slot (Z.to_nat 1) 1 ids = Some <$> hs.*1
        ∧ slot (Z.to_nat 1) 1 dis = Some ∘ F32 <$> hs.*2.
Proof.
  eexists _, _. split; [vm_compute; reflexivity|].
  apply (flat_search_answers_each_row (F := Toy.faiss) toy_kernel toy_store
           toy_node toy_ds2 toy_cfg1 [] 2 1); [vm_compute; reflexivity|cbn; lia].
Defined.

(** The vector 9 is row 1 of one batch and row 0 of another. *)
Lemma flat_search_row_independent_of_batch_witness :
  ∃ ids1 dis1 ids2 dis2,
    Flat.Search (F := Toy.faiss) IndexFlat false toy_store toy_node toy_ds2
      toy_cfg1 [] = Returns (value (TopK 2 1 ids1 dis1))
    ∧ Flat.Search (F := Toy.faiss) IndexFlat false toy_store toy_node
        toy_ds_shared toy_cfg1 [] = Returns (value (TopK 3 1 ids2 dis2))
    ∧ slot (Z.to_nat 1) 1 ids1 = slot (Z.to_nat 1) 0 ids2
    ∧ slot (Z.to_nat 1) 1 dis1 = slot (Z.to_nat 1) 0 dis2.
Proof.
  eexists _, _, _, _. split; [vm_compute; reflexivity|].
  split; [vm_compute; reflexivity|].
  apply (flat_search_row_independent_of_batch (F := Toy.faiss) toy_kernel
           toy_store toy_node toy_cfg1 [] toy_ds2 toy_ds_shared 2 1 _ _ 3 1 _ _
           1%nat 0%nat (toy_index [4; 6; 20]));
    [vm_compute; reflexivity|vm_compute; reflexivity|cbn; lia|cbn; lia
    |reflexivity|reflexivity].
Defined.

Section FlatErrors.
Context {F : Faiss} {R : RangeUtil}.
Variable T : IndexKind.

Lemma search_task_no_throw ix x k bitset i e :
  Flat.search_task T ix x k bitset i ≠ Throws e.
Proof. unfold Flat.search_task, read_span. by destruct (_ && _). Qed.

Lemma range_task_no_throw ix x cfg bitset i e :
  Flat.range_task T ix x cfg bitset i ≠ Throws e.
Proof. unfold Flat.range_task, read_span. by destruct (_ && _). Qed.

(** X8. For a row count of at most [INT_MAX], the only errors [Search] of
    the flat node returns are [empty_index], exactly when the node holds no
    instance, and [faiss_inner_error], when the row count is negative
    ([futs.reserve] throws) or the task of some row ended with an exception
    of the backend.  Allocation failures in the function's own containers
    and in the pool are left aside. *)
Theorem flat_search_error_causes nomem σ node ds cfg bitset e :
  GetRows ds <= INT_MAX ->
  Flat.Search T nomem σ node ds cfg bitset = Returns (unexpected e) ->
  (e = empty_index ∧ Flat.index_ node = None)
  ∨ (e = faiss_inner_error
     ∧ ∃ ix, deref σ (Flat.index_ node) = Returns ix
       ∧ (GetRows ds < 0
          ∨ ∃ i err, (i < Z.to_nat (GetRows ds))%nat
              ∧ Flat.search_task T ix (GetTensor ds) (k cfg) bitset i
                = Returns (inl err))).
Proof.
  intros _. unfold Flat.Search. destruct (Flat.index_ node) as [l|] eqn:Hl.
  2:{ intros [= <-]. by left. }
  destruct (deref σ (Some l)) as [ix| |] eqn:Hix; try done. cbn.
  intros Hs. right.
  destruct (GetRows ds <? 0) eqn:Hneg.
  { injection Hs as <-. split; [done|]. exists ix. split; [done|]. left. lia. }
  destruct (INT_MAX <? GetRows ds); [done|].
  destruct (mapM _ _) as [outs| |] eqn:Hm; try done. cbn in Hs.
  destruct (nomem && _); [done|].
  destruct (existsb Flat.raised outs) eqn:Hex; [|done]. injection Hs as <-.
  split; [done|]. exists ix. split; [done|]. right.
  destruct (mapM_exec_raised _ _ _ Hm Hex) as (i & x & err & Hi & Hx).
  apply lookup_seq in Hi as [-> Hi]. by exists i, err.
Qed.

End FlatErrors.

(** The small backend rejects the only row of the batch. *)
Lemma flat_search_error_causes_witness :
  (faiss_inner_error = empty_index ∧ Flat.index_ toy_node = None)
  ∨ (faiss_inner_error = faiss_inner_error
     ∧ ∃ ix, deref (F := Toy.faiss) toy_store (Flat.index_ toy_node) = Returns ix
       ∧ (GetRows toy_ds_rejected < 0
          ∨ ∃ i err, (i < Z.to_nat (GetRows toy_ds_rejected))%nat
              ∧ Flat.search_task IndexFlat ix (GetTensor toy_ds_rejected)
                  (k toy_cfg1) [] i = Returns (inl err))).
Proof.
  apply (flat_search_error_causes (F := Toy.faiss) IndexFlat false toy_store
           toy_node toy_ds_rejected toy_cfg1 [] faiss_inner_error);
    [by vm_compute|vm_compute; reflexivity].
Defined.

Section BinaryStride.
Context {F : Faiss} {R : RangeUtil}.

Lemma binary_last_row_outside ix x nq :
  0 < index_d ix -> 2 <= nq ->
  Z.of_nat (length x) = nq * (index_d ix / 8) ->
  read_span x (Z.of_nat (Z.to_nat nq - 1) * index_d ix)
    (row_elems IndexBinaryFlat (index_d ix)) = Undef.
Proof.
  intros Hd Hnq Hlen. unfold read_span. cbn [row_elems].
  assert (index_d ix / 8 < index_d ix) by (apply Z.div_lt; lia).
  assert (0 <= index_d ix / 8) by (apply Z.div_pos; lia).
  rewrite Nat2Z.inj_sub, Z2Nat.id by lia.
  assert (Hout : (Z.of_nat 1 = 1) ∧ Z.of_nat (length x)
            < (nq - 1) * index_d ix + index_d ix / 8) by (split; [done|nia]).
  destruct Hout as [-> Hout].
  destruct (_ <=? Z.of_nat (length x)) eqn:Hle; [apply Z.leb_le in Hle; lia|].
  by rewrite andb_false_r.
Qed.

(** X9. On the binary variant the task of row [i] takes its operand [i * d]
    bytes into the tensor, a row being [d / 8] bytes long.  So for every
    well-formed batch of two or more rows the task of the last row reads
    past the end of the tensor: [Search] and [RangeSearch] have undefined
    behaviour on every such batch. *)
Theorem binary_batch_reads_past_tensor nomem σ node ds cfg bitset ix :
  deref σ (Flat.index_ node) = Returns ix ->
  0 < index_d ix ->
  2 <= GetRows ds <= INT_MAX ->
  Z.of_nat (length (GetTensor ds)) = GetRows ds * (index_d ix / 8) ->
  Flat.Search IndexBinaryFlat nomem σ node ds cfg bitset = Undef
  ∧ Flat.RangeSearch IndexBinaryFlat σ node ds cfg bitset = Undef.
Proof.
  intros Hix Hd [Hnq Hmax] Hlen.
  assert (Hl : ∃ l, Flat.index_ node = Some l).
  { destruct (Flat.index_ node); [by eexists|done]. }
  destruct Hl as [l Hl].
  assert (Hin : (Z.to_nat (GetRows ds) - 1)%nat ∈ seq 0 (Z.to_nat (GetRows ds))).
  { apply elem_of_seq. lia. }
  pose proof (binary_last_row_outside ix _ _ Hd Hnq Hlen) as Hout.
  split.
  - unfold Flat.Search. rewrite Hl, <- Hl, Hix. cbn.
    destruct (GetRows ds <? 0) eqn:Hneg; [lia|].
    destruct (INT_MAX <? GetRows ds) eqn:Hbig; [lia|].
    rewrite (mapM_exec_Undef _ _ _ Hin); [done| |].
    + unfold Flat.search_task. by rewrite Hout.
    + intros y e _. apply search_task_no_throw.
  - unfold Flat.RangeSearch. rewrite Hl, <- Hl, Hix. cbn.
    destruct (GetRows ds <? 0) eqn:Hneg; [lia|].
    destruct (INT_MAX <? GetRows ds) eqn:Hbig; [lia|].
    rewrite (mapM_exec_Undef _ _ _ Hin); [done| |].
    + unfold Flat.range_task. by rewrite Hout.
    + intros y e _. apply range_task_no_throw.
Qed.

End BinaryStride.

(** The binary node over 8-bit vectors and a batch of two one-byte rows. *)
Lemma binary_batch_reads_past_tensor_witness :
  Flat.Search (F := Toy.faiss) IndexBinaryFlat false toy_bin_store toy_node
    toy_bin_ds2 toy_bin_cfg [] = Undef
  ∧ Flat.RangeSearch (F := Toy.faiss) (R := Toy.range_util) IndexBinaryFlat
      toy_bin_store toy_node toy_bin_ds2 toy_bin_cfg [] = Undef.
Proof.
  apply (binary_batch_reads_past_tensor (F := Toy.faiss) (R := Toy.range_util)
           false toy_bin_store toy_node toy_bin_ds2 toy_bin_cfg [] toy_bin_index);
    [reflexivity|reflexivity|by vm_compute|reflexivity].
Defined.

(** ** The binary node: which row a slot answers *)

Section BinarySlots.
Context {F : Faiss} (HC : KernelContract F).
Local Open Scope nat_scope.

(** X10. On the binary variant, with a dimension that is a multiple of 8,
    slot [i] of a successful [Search] holds the backend's answer for row
    [8 * i] of the tensor (distances converted to [float] under the Hamming
    metric, left as the integers the backend stored otherwise): slot 0
    answers row 0, and slot [i] answers row [8 * i] where row [i] is due. *)
Theorem binary_search_slot_answers_row_8i σ node ds cfg bitset nq kk ids dis ix i :
  Flat.Search IndexBinaryFlat false σ node ds cfg bitset
    = Returns (value (TopK nq kk ids dis)) ->
  deref σ (Flat.index_ node) = Returns ix ->
  (index_d ix mod 8 = 0)%Z ->
  i < Z.to_nat nq ->
  ∃ q hs,
    query_row IndexBinaryFlat (GetTensor ds) (index_d ix) (8 * i) = Returns q
    ∧ index_search_binary ix q kk bitset = inr hs
    ∧ slot (Z.to_nat kk) i ids = Some <$> hs.*1
    ∧ slot (Z.to_nat kk) i dis
      = Some <$> ((if MetricType_eqb (index_metric_type ix) METRIC_Hamming
                   then fun z => F32 (float_of_int32 z) else I32) <$> hs.*2).
Proof.
  intros Hs Hix Hd Hi.
  destruct (search_slot HC _ _ _ _ _ _ _ _ _ _ i Hs Hi)
    as (ix' & hs & Hix' & Htask & Hids & Hdis).
  assert (ix' = ix) as -> by congruence.
  unfold Flat.search_task in Htask.
  destruct (read_span _ _ _) as [q| |] eqn:Hq; try done. cbn in Htask.
  destruct (index_search_binary _ _ _ _) as [e|hs0] eqn:Hker; [done|].
  injection Htask as <-. exists q, hs0. split_and!; try done.
  - by rewrite <- binary_task_operand.
  - rewrite Hids. destruct (MetricType_eqb _ _);
      rewrite <- !list_fmap_compose; by apply list_fmap_ext; intros ? [].
  - rewrite Hdis. destruct (MetricType_eqb _ _);
      rewrite <- !list_fmap_compose; by apply list_fmap_ext; intros ? [].
Qed.

End BinarySlots.

(** The binary node and a batch of two rows in a tensor of nine bytes: row 1
    is the byte 11, and slot 1 holds the answer for the byte 18 at offset 8. *)
Lemma binary_search_slot_answers_row_8i_witness :
  ∃ ids dis,
    Flat.Search (F := Toy.faiss) IndexBinaryFlat false toy_bin_store toy_node
      toy_bin_ds2_padded toy_bin_cfg [] = Returns (value (TopK 2 1 ids dis))
    ∧ query_row IndexBinaryFlat (GetTensor toy_bin_ds2_padded) 8 1 = Returns [11]
    ∧ query_row IndexBinaryFlat (GetTensor toy_bin_ds2_padded) 8 (8 * 1)
      = Returns [18]
    ∧ ∃ q hs,
        query_row IndexBinaryFlat (GetTensor toy_bin_ds2_padded) 8 (8 * 1)
          = Returns q
        ∧ Toy.search_with id q 1 = inr hs
        ∧ slot (Z.to_nat 1) 1 ids = Some <$> hs.*1
        ∧ slot (Z.to_nat 1) 1 dis
          = Some <$> ((fun z => F32 (float_of_int32 z)) <$> hs.*2).
Proof.
  eexists _, _. split; [vm_compute; reflexivity|].
  split; [reflexivity|]. split; [reflexivity|].
  apply (binary_search_slot_answers_row_8i (F := Toy.faiss) toy_kernel
           toy_bin_store toy_node toy_bin_ds2_padded toy_bin_cfg [] 2 1 _ _
           toy_bin_index 1%nat);
    [vm_compute; reflexivity|reflexivity|reflexivity|cbn; lia].
Defined.

(** ** The flat node: the unchecked allocation of [Search] *)

Section SearchAllocation.
Context {F : Faiss} (HC : KernelContract F).
Variable T : IndexKind.

(** X11. [Search] does not test the arrays it gets from [new (std::nothrow)]:
    when that allocation fails, [Search] returns a result only for a request
    in which no task stores anything (no rows, or [k = 0]); otherwise it
    returns an error or has undefined behaviour. *)
Theorem search_unchecked_allocation σ node ds cfg bitset r :
  Flat.Search T true σ node ds cfg bitset = Returns (value r) ->
  GetRows ds = 0 ∨ k cfg = 0.
Proof.
  unfold Flat.Search. destruct (Flat.index_ node) as [l|]; [|done].
  destruct (deref σ (Some l)) as [ix| |]; try done. cbn.
  destruct (GetRows ds <? 0) eqn:Hneg; [done|]. apply Z.ltb_ge in Hneg.
  destruct (INT_MAX <? GetRows ds); [done|].
  destruct (mapM _ _) as [outs| |] eqn:Hm; try done. cbn.
  destruct (forallb Flat.stores_nothing outs) eqn:Hall; [|done]. cbn.
  destruct (existsb Flat.raised outs) eqn:Hex; [done|]. intros _.
  destruct (decide (GetRows ds = 0)) as [|Hrows]; [by left|right].
  destruct (mapM_exec_lookup _ _ _ 0%nat 0%nat Hm) as (out & Hout & Htask).
  { apply lookup_seq_lt. lia. }
  rewrite forallb_forall in Hall.
  assert (Hin : In out outs).
  { apply list_elem_of_In, list_elem_of_lookup. eauto. }
  specialize (Hall out Hin). destruct out as [e|hs].
  - assert (existsb Flat.raised outs = true); [|congruence].
    apply existsb_exists. by exists (inl e).
  - cbn in Hall. apply bool_decide_eq_true_1 in Hall as ->.
    by rewrite <- (search_task_fills HC T _ _ _ _ _ _ Htask).
Qed.

End SearchAllocation.

(** With [k = 0] no task stores anything. *)
Lemma search_unchecked_allocation_witness :
  GetRows toy_ds2 = 0 ∨ k toy_cfg0 = 0.
Proof.
  apply (search_unchecked_allocation (F := Toy.faiss) toy_kernel IndexFlat
           toy_store toy_node toy_ds2 toy_cfg0 [] (TopK 2 0 [] [])).
  vm_compute. reflexivity.
Defined.

(** ** The flat node: [GetVectorByIds] *)

Section Reconstruct.
Context {F : Faiss} {RC : FaissReconstruct F}.
Variable T : IndexKind.

Lemma recons_offset_rows i dim :
  0 <= i -> 0 <= dim -> (T = IndexBinaryFlat -> dim mod 8 = 0) ->
  Flat.recons_offset T i dim = i * row_elems T dim.
Proof.
  intros Hi Hdim H8. unfold Flat.recons_offset, row_elems. destruct T; [done|].
  rewrite Z.quot_div_nonneg by nia.
  pose proof (Z.div_mod dim 8 ltac:(lia)) as Hdm. rewrite H8 in Hdm by done.
  replace (i * dim) with ((i * (dim / 8)) * 8) by lia.
  by rewrite Z.div_mul by lia.
Qed.

Lemma row_elems_nonneg dim : 0 <= dim -> 0 <= row_elems T dim.
Proof. intros. unfold row_elems. destruct T; [done|]. apply Z.div_pos; lia. Qed.

Lemma store_at_Some off v (buf : list (option Z)) :
  0 <= off -> off + Z.of_nat (length v) <= Z.of_nat (length buf) ->
  Flat.store_at off v (Some buf)
  = Returns (Some (list_inserts (Z.to_nat off) (Some <$> v) buf)).
Proof.
  intros H0 H1. destruct v as [|a v]; [done|]. unfold Flat.store_at.
  destruct (0 <=? off) eqn:E0; [|lia].
  destruct (_ <=? Z.of_nat (length buf)) eqn:E1; [done|lia].
Qed.

Lemma store_at_next (j n : nat) (re : Z) v (pre : list (option Z)) :
  0 <= re -> Z.of_nat (length v) = re ->
  Z.of_nat (length pre) = Z.of_nat j * re ->
  Flat.store_at (Z.of_nat j * re) v
    (Some (pre ++ replicate (Z.to_nat (Z.of_nat (S n) * re)) None))
  = Returns (Some ((pre ++ (Some <$> v))
                   ++ replicate (Z.to_nat (Z.of_nat n * re)) None)).
Proof.
  intros Hre Hv Hpre.
  assert (Hsplit : replicate (Z.to_nat (Z.of_nat (S n) * re)) (@None Z)
                   = replicate (length v) None
                     ++ replicate (Z.to_nat (Z.of_nat n * re)) None).
  { rewrite <- replicate_add. f_equal. nia. }
  rewrite Hsplit, store_at_Some.
  - do 2 f_equal.
    replace (Z.to_nat (Z.of_nat j * re)) with (length pre + 0)%nat by lia.
    rewrite list_inserts_app_r, list_inserts_0_r, <- app_assoc; [done|].
    by rewrite length_fmap, length_replicate.
  - nia.
  - rewrite !length_app, !length_replicate. nia.
Qed.

Lemma reconstruct_rows_fill ix in_ids dim n :
  0 <= dim -> (T = IndexBinaryFlat -> dim mod 8 = 0) ->
  ∀ (j : nat) pre,
    Z.of_nat (length pre) = Z.of_nat j * row_elems T dim ->
    (j + n <= length in_ids)%nat ->
    (∀ i id, (j <= i < j + n)%nat -> in_ids !! i = Some id ->
       ∃ v, index_reconstruct ix id = inr v
            ∧ Z.of_nat (length v) = row_elems T dim) ->
    ∃ vs,
      Forall2 (fun id v => index_reconstruct ix id = inr v)
        (take n (drop j in_ids)) vs
      ∧ Flat.reconstruct_rows T (Returns ix) in_ids dim (seq j n)
          (Some (pre ++ replicate (Z.to_nat (Z.of_nat n * row_elems T dim)) None))
        = Returns (inr (Some (pre ++ (Some <$> concat vs)))).
Proof.
  intros Hdim H8. pose proof (row_elems_nonneg dim Hdim) as Hre.
  induction n as [|n IH]; intros j pre Hpre Hlen Hrec.
  { exists []. split; [by rewrite take_0|]. cbn. by rewrite !app_nil_r. }
  destruct (lookup_lt_is_Some_2 in_ids j ltac:(lia)) as [id Hid].
  destruct (Hrec j id ltac:(lia) Hid) as (v & Hv & Hvlen).
  destruct (IH (S j) (pre ++ (Some <$> v))) as (vs & Hvs & Hrun).
  { rewrite length_app, length_fmap. lia. }
  { lia. }
  { intros i id' Hi. apply Hrec. lia. }
  exists (v :: vs). split.
  - rewrite (drop_S _ _ _ Hid). cbn. by constructor.
  - cbn [seq Flat.reconstruct_rows]. rewrite Hid. cbn. rewrite Hv.
    rewrite recons_offset_rows by (done || lia).
    rewrite (store_at_next j n) by done. cbn.
    rewrite Hrun. cbn. by rewrite fmap_app, app_assoc.
Qed.

(** X12. [GetVectorByIds] returns the requested vectors in the order of the
    request: when the node holds an instance, the dataset carries at least
    [rows] ids and the backend reconstructs each of them to a vector of the
    dataset's dimension ([dim] floats, [dim / 8] bytes for binary codes),
    the returned tensor is the concatenation of the reconstructed vectors,
    row after row, with no cell left unwritten. *)
Theorem get_vector_by_ids_in_request_order σ node ds cfg ix :
  deref σ (Flat.index_ node) = Returns ix ->
  0 <= GetRows ds -> 0 <= GetDim ds ->
  (T = IndexBinaryFlat -> GetDim ds mod 8 = 0) ->
  (Z.to_nat (GetRows ds) <= length (GetIds ds))%nat ->
  (∀ i id, (i < Z.to_nat (GetRows ds))%nat -> GetIds ds !! i = Some id ->
     ∃ v, index_reconstruct ix id = inr v
          ∧ Z.of_nat (length v) = row_elems T (GetDim ds)) ->
  ∃ vs,
    Forall2 (fun id v => index_reconstruct ix id = inr v)
      (take (Z.to_nat (GetRows ds)) (GetIds ds)) vs
    ∧ Flat.GetVectorByIds T false σ node ds cfg
      = Returns (value (Some (Some <$> concat vs))).
Proof.
  intros Hix Hrows Hdim H8 Hids Hrec.
  pose proof (row_elems_nonneg _ Hdim) as Hre.
  destruct (reconstruct_rows_fill ix (GetIds ds) (GetDim ds)
              (Z.to_nat (GetRows ds)) Hdim H8 0%nat []) as (vs & Hvs & Hrun).
  { cbn. lia. }
  { lia. }
  { intros i id Hi. apply Hrec. lia. }
  exists vs. split; [done|].
  unfold Flat.GetVectorByIds. rewrite Hix.
  rewrite recons_offset_rows by done.
  destruct (_ <? 0) eqn:Hneg; [apply Z.ltb_lt in Hneg; nia|]. cbn [orb].
  rewrite Z2Nat.id in Hrun by done. cbn in Hrun. rewrite Hrun. done.
Qed.

(** X13. [GetVectorByIds] does not test [index_]: on a node without an
    instance a request of one row or more has undefined behaviour, where
    [Search] and [RangeSearch] return [empty_index]. *)
Theorem get_vector_by_ids_empty_node nomem σ node ds cfg :
  Flat.index_ node = None -> 0 < GetRows ds ->
  Flat.GetVectorByIds T nomem σ node ds cfg = Undef.
Proof.
  intros Hnode Hrows. unfold Flat.GetVectorByIds. rewrite Hnode.
  destruct (Z.to_nat (GetRows ds)) as [|n] eqn:Hn; [lia|].
  cbn. by destruct (GetIds ds !! 0%nat).
Qed.

End Reconstruct.

(** The vectors 2 and 0 of the node with the vectors 4, 6 and 20. *)
Lemma get_vector_by_ids_in_request_order_witness :
  ∃ vs,
    Forall2 (fun id v => Toy.reconstruct (toy_index [4; 6; 20]) id = inr v)
      (take (Z.to_nat (GetRows toy_ids_ds)) (GetIds toy_ids_ds)) vs
    ∧ Flat.GetVectorByIds (F := Toy.faiss) (RC := Toy.reconstructor) IndexFlat
        false toy_store toy_node toy_ids_ds toy_cfg
      = Returns (value (Some (Some <$> concat vs))).
Proof.
  apply (get_vector_by_ids_in_request_order (F := Toy.faiss)
           (RC := Toy.reconstructor) IndexFlat toy_store toy_node toy_ids_ds
           toy_cfg (toy_index [4; 6; 20]));
    [reflexivity|by vm_compute|by vm_compute|discriminate|cbn; lia|].
  intros [|[|i]] id Hi; cbn; [intros [= <-]; by eexists..|cbn in Hi; lia].
Defined.

Lemma get_vector_by_ids_empty_node_witness :
  Flat.GetVectorByIds (F := Toy.faiss) (RC := Toy.reconstructor) IndexFlat
    false ∅ flat_empty toy_ids_ds toy_cfg = Undef.
Proof.
  apply (get_vector_by_ids_empty_node (F := Toy.faiss) (RC := Toy.reconstructor)
           IndexFlat false ∅ flat_empty toy_ids_ds toy_cfg); [reflexivity|by vm_compute].
Defined.

(** ** The GPU node: training, adding, building *)

Section GpuState.
Context {F : Faiss} {G : FaissGpu F} {GT : FaissGpuTrain F G}.
Context (HS : StorageContract F) (HT : GpuTrainContract F G GT).
Variable T : IvfKind.

Lemma gpu_train_success gpu_res σ node ds cfg nlist m nbits σ' node' :
  GpuIvf.Train T gpu_res σ node ds cfg nlist m nbits = Returns (success, σ', node') ->
  ∃ res ix,
    gpu_res = Some res
    ∧ node' = {| GpuIvf.res_ := Some res; GpuIvf.gpu_index_ := Some (fresh (dom σ)) |}
    ∧ σ' = <[fresh (dom σ) := ix]> σ
    ∧ index_is_trained ix = true ∧ index_ntotal ix = 0.
Proof.
  unfold GpuIvf.Train. intros Ht.
  destruct (match GpuIvf.gpu_index_ node with Some _ => _ | None => _ end)
    as [[]| |]; try done. cbn in Ht.
  destruct (Str2FaissMetricType _) as [metric|e] eqn:Hm.
  2:{ injection Ht as -> _ _. by destruct (metric_error _ Hm). }
  destruct gpu_res as [res|]; [|done].
  destruct (gpu_index_new _ _) as [e|ix0] eqn:Hnew; [done|].
  destruct (index_train _ _ _) as [e|ix] eqn:Htr; [done|].
  injection Ht as <- <-. exists res, ix. split_and!; try done.
  - by destruct (train_trained _ _ _ _ Htr).
  - destruct (train_trained _ _ _ _ Htr) as [_ ->]. by eapply gpu_new_empty.
Qed.

Lemma gpu_add_success σ node ds cfg σ' node' :
  GpuIvf.Add σ node ds cfg = Returns (success, σ', node') ->
  ∃ l ix ix',
    GpuIvf.gpu_index_ node = Some l ∧ σ !! l = Some ix
    ∧ index_is_trained ix = true
    ∧ index_add (GetRows ds) (GetTensor ds) ix = inr ix'
    ∧ σ' = <[l := ix']> σ ∧ node' = node.
Proof.
  unfold GpuIvf.Add. intros Ha.
  destruct (GpuIvf.gpu_index_ node) as [l|] eqn:Hl; [|done].
  cbn in Ha. destruct (σ !! l) as [ix|] eqn:Hix; [|done]. cbn in Ha.
  destruct (index_is_trained ix) eqn:Htr; [|done]. cbn in Ha.
  destruct (index_add _ _ _) as [e|ix'] eqn:Hadd; [done|].
  injection Ha as <- <-. by exists l, ix, ix'.
Qed.

(** X14. [Add] of the GPU node appends to the instance the node holds (the
    flat node's [Add] replaces the instance instead).  The node points to
    the same instance after every [Add].  [empty_index] and
    [index_not_trained] are returned before the backend is called and change
    nothing.  After [faiss_inner_error] the node's instance is what the
    throwing [add] left behind, and no other instance has changed.  After
    [success], [Count] has grown by the rows of the call. *)
Theorem gpu_add_appends σ node ds cfg s σ' node' :
  GpuIvf.Add σ node ds cfg = Returns (s, σ', node') ->
  node' = node
  ∧ (s ≠ success -> s ≠ faiss_inner_error -> σ' = σ)
  ∧ (s = faiss_inner_error ->
     ∃ l ix, GpuIvf.gpu_index_ node = Some l ∧ σ !! l = Some ix
             ∧ σ' = <[l := index_add_failed (GetRows ds) (GetTensor ds) ix]> σ)
  ∧ (s = success ->
     ∃ n, GpuIvf.Count σ node = Returns n
          ∧ GpuIvf.Count σ' node' = Returns (n + GetRows ds)).
Proof.
  intros Ha. split_and!.
  - unfold GpuIvf.Add in Ha.
    destruct (GpuIvf.gpu_index_ node) as [l|]; [|by injection Ha as _ _ <-].
    cbn in Ha. destruct (σ !! l) as [ix|]; [|done]. cbn in Ha.
    destruct (negb _); [by injection Ha as _ _ <-|].
    by destruct (index_add _ _ _); injection Ha as _ _ <-.
  - intros Hs He. unfold GpuIvf.Add in Ha.
    destruct (GpuIvf.gpu_index_ node) as [l|]; [|by injection Ha as _ <- _].
    cbn in Ha. destruct (σ !! l) as [ix|]; [|done]. cbn in Ha.
    destruct (negb _); [by injection Ha as _ <- _|].
    destruct (index_add _ _ _); by injection Ha as <- _ _.
  - intros ->. unfold GpuIvf.Add in Ha.
    destruct (GpuIvf.gpu_index_ node) as [l|]; [|done].
    cbn in Ha. destruct (σ !! l) as [ix|] eqn:Hix; [|done]. cbn in Ha.
    destruct (negb _); [done|].
    destruct (index_add _ _ _); [|done].
    injection Ha as <- _. by exists l, ix.
  - intros ->.
    destruct (gpu_add_success _ _ _ _ _ _ Ha)
      as (l & ix & ix' & Hl & Hix & _ & Hadd & -> & ->).
    exists (index_ntotal ix).
    unfold GpuIvf.Count. rewrite Hl. cbn. rewrite Hix, lookup_insert_eq. cbn.
    by rewrite (ntotal_add _ _ _ _ Hadd).
Qed.

(** X15. A successful [Build] of the GPU node leaves a trained instance that
    holds exactly the rows of the dataset: [Count] is [GetRows]. *)
Theorem gpu_build_counts_rows gpu_res σ node ds cfg nlist m nbits σ' node' :
  GpuIvf.Build T gpu_res σ node ds cfg nlist m nbits = Returns (success, σ', node') ->
  GpuIvf.Count σ' node' = Returns (GetRows ds)
  ∧ ∃ l ix, GpuIvf.gpu_index_ node' = Some l ∧ σ' !! l = Some ix
            ∧ index_is_trained ix = true.
Proof.
  unfold GpuIvf.Build. intros Hb.
  destruct (GpuIvf.Train _ _ _ _ _ _ _ _ _) as [[[s1 σ1] node1]| |] eqn:Ht; try done.
  cbn in Hb. destruct s1; try (by injection Hb).
  destruct (gpu_train_success _ _ _ _ _ _ _ _ _ _ Ht) as (res & ix & -> & -> & -> & Htr & Hn).
  destruct (gpu_add_success _ _ _ _ _ _ Hb) as (l & ix1 & ix' & Hl & Hix & _ & Hadd & -> & ->).
  cbn in Hl. injection Hl as <-. rewrite lookup_insert_eq in Hix. injection Hix as <-.
  split.
  - unfold GpuIvf.Count. cbn. rewrite lookup_insert_eq. cbn.
    by rewrite (ntotal_add _ _ _ _ Hadd), Hn.
  - eexists _, ix'. cbn. rewrite lookup_insert_eq. split_and!; try done.
    by rewrite (add_keeps_trained _ _ _ _ Hadd).
Qed.

(** X16. The GPU node is built once: after a successful [Build], every further
    [Train] and [Build], with whatever dataset and configuration, returns
    [index_already_trained] and changes nothing. *)
Theorem gpu_build_only_once gpu_res σ node ds cfg nlist m nbits σ' node'
    gpu_res2 ds2 cfg2 nlist2 m2 nbits2 :
  GpuIvf.Build T gpu_res σ node ds cfg nlist m nbits = Returns (success, σ', node') ->
  GpuIvf.Train T gpu_res2 σ' node' ds2 cfg2 nlist2 m2 nbits2
    = Returns (index_already_trained, σ', node')
  ∧ GpuIvf.Build T gpu_res2 σ' node' ds2 cfg2 nlist2 m2 nbits2
    = Returns (index_already_trained, σ', node').
Proof.
  intros Hb.
  assert (Ht : GpuIvf.Train T gpu_res2 σ' node' ds2 cfg2 nlist2 m2 nbits2
               = Returns (index_already_trained, σ', node')).
  { unfold GpuIvf.Build in Hb.
    destruct (GpuIvf.Train _ _ _ _ _ _ _ _ _) as [[[s1 σ1] node1]| |] eqn:Ht; try done.
    cbn in Hb. destruct s1; try (by injection Hb).
    destruct (gpu_add_success _ _ _ _ _ _ Hb) as (l & ix1 & ix' & Hl & Hix & Htr & Hadd & -> & ->).
    unfold GpuIvf.Train. rewrite Hl. cbn. rewrite lookup_insert_eq. cbn.
    by rewrite (add_keeps_trained _ _ _ _ Hadd), Htr. }
  split; [done|]. unfold GpuIvf.Build. by rewrite Ht.
Qed.

Lemma gpu_train_failure gpu_res σ node ds cfg nlist m nbits s σ' node' :
  GpuIvf.Train T gpu_res σ node ds cfg nlist m nbits = Returns (s, σ', node') ->
  s ≠ success -> σ' = σ ∧ node' = node.
Proof.
  unfold GpuIvf.Train. intros Ht Hs.
  destruct (match GpuIvf.gpu_index_ node with Some _ => _ | None => _ end)
    as [[]| |]; try done; cbn in Ht.
  { by injection Ht as <- <- <-. }
  destruct (Str2FaissMetricType _) as [metric|e]; [|by injection Ht as <- <- <-].
  destruct gpu_res as [res|]; [|done].
  destruct (gpu_index_new _ _) as [e|ix0]; [by injection Ht as <- <- <-|].
  destruct (index_train _ _ _) as [e|ix]; [by injection Ht as <- <- <-|].
  by injection Ht as <- _ _.
Qed.

(** X17. A [Train] of the GPU node that returns a status other than [success]
    has changed neither the store nor the node: the index it constructed is
    deleted again when [train] throws. *)
Theorem gpu_train_error_keeps_state gpu_res σ node ds cfg nlist m nbits s σ' node' :
  GpuIvf.Train T gpu_res σ node ds cfg nlist m nbits = Returns (s, σ', node') ->
  s ≠ success -> σ' = σ ∧ node' = node.
Proof. apply gpu_train_failure. Qed.

Context (HF : GpuAddFailureContract F G).

(** X18. [Build] of the GPU node is not undone when its [Add] step fails: a
    [Build] that returns a status other than [success] has either changed
    nothing (the [Train] step failed), or it returns [faiss_inner_error] and
    leaves the node pointing to the new instance [Train] made, trained and
    in the state the throwing [add] left it in; from then on every [Build]
    returns [index_already_trained]. *)
Theorem gpu_build_failure_keeps_trained_instance
    gpu_res σ node ds cfg nlist m nbits s σ' node' :
  GpuIvf.Build T gpu_res σ node ds cfg nlist m nbits = Returns (s, σ', node') ->
  s ≠ success ->
  (σ' = σ ∧ node' = node)
  ∨ (s = faiss_inner_error
     ∧ (∃ res ix,
          node' = {| GpuIvf.res_ := Some res;
                     GpuIvf.gpu_index_ := Some (fresh (dom σ)) |}
          ∧ σ' = <[fresh (dom σ) := ix]> σ
          ∧ index_is_trained ix = true)
     ∧ ∀ gpu_res2 ds2 cfg2 nlist2 m2 nbits2,
         GpuIvf.Build T gpu_res2 σ' node' ds2 cfg2 nlist2 m2 nbits2
         = Returns (index_already_trained, σ', node')).
Proof.
  unfold GpuIvf.Build at 1. intros Hb Hs.
  destruct (GpuIvf.Train _ _ _ _ _ _ _ _ _) as [[[s1 σ1] node1]| |] eqn:Ht; try done.
  cbn in Hb.
  assert (Hcases : (s1 = success ∧ GpuIvf.Add σ1 node1 ds cfg = Returns (s, σ', node'))
                   ∨ (s1 ≠ success ∧ s = s1 ∧ σ' = σ1 ∧ node' = node1)).
  { destruct s1; (by left) || (right; by injection Hb as <- <- <-). }
  destruct Hcases as [[-> Ha]|(Hs1 & -> & -> & ->)].
  2:{ left. by eapply gpu_train_failure. }
  right.
  destruct (gpu_train_success _ _ _ _ _ _ _ _ _ _ Ht)
    as (res & ix & -> & -> & -> & Htr & Hn).
  unfold GpuIvf.Add in Ha. cbn in Ha. rewrite lookup_insert_eq in Ha. cbn in Ha.
  rewrite Htr in Ha. cbn in Ha.
  destruct (index_add _ _ _) as [e|ix']; [|by injection Ha as <- _ _].
  rewrite insert_insert_eq in Ha. injection Ha as <- <- <-.
  assert (Htr' : index_is_trained
                   (index_add_failed (GetRows ds) (GetTensor ds) ix) = true)
    by (by rewrite add_failed_keeps_trained).
  split_and!; [done| |].
  - by eexists res, _.
  - intros. unfold GpuIvf.Build, GpuIvf.Train. cbn. rewrite lookup_insert_eq. cbn.
    by rewrite Htr'.
Qed.

End GpuState.

(** Two more vectors are added to the GPU node with three. *)
Lemma gpu_add_appends_witness :
  ∃ n, GpuIvf.Count (F := Toy.faiss) (G := Toy.gpu) toy_store toy_gpu_node = Returns n
       ∧ GpuIvf.Count (F := Toy.faiss) (G := Toy.gpu)
           (<[1%positive := toy_index [4; 6; 20; 5; 9]]> toy_store) toy_gpu_node
         = Returns (n + GetRows toy_ds2).
Proof.
  destruct (gpu_add_appends (F := Toy.faiss) (G := Toy.gpu) toy_storage toy_store
              toy_gpu_node toy_ds2 toy_gpu_cfg success
              (<[1%positive := toy_index [4; 6; 20; 5; 9]]> toy_store) toy_gpu_node)
    as (_ & _ & _ & Hcount); [reflexivity|].
  exact (Hcount eq_refl).
Defined.

(** A fresh GPU node is built from three vectors. *)
Lemma gpu_build_counts_rows_witness :
  GpuIvf.Count (F := Toy.faiss) (G := Toy.gpu) toy_store toy_gpu_node
    = Returns (GetRows toy_ds3)
  ∧ ∃ l (ix : Toy.index),
      GpuIvf.gpu_index_ toy_gpu_node = Some l ∧ toy_store !! l = Some ix
      ∧ index_is_trained (Faiss := Toy.faiss) ix = true.
Proof.
  apply (gpu_build_counts_rows (F := Toy.faiss) (G := Toy.gpu) (GT := Toy.trainer)
           toy_storage toy_gpu_train IndexIVFFlat (Some toy_res) ∅ gpu_empty
           toy_ds3 toy_gpu_cfg 4 0 0).
  reflexivity.
Defined.

Lemma gpu_build_only_once_witness :
  GpuIvf.Train (F := Toy.faiss) (G := Toy.gpu) (GT := Toy.trainer) IndexIVFPQ
    (Some toy_res) toy_store toy_gpu_node toy_ds2 toy_gpu_cfg 8 2 4
    = Returns (index_already_trained, toy_store, toy_gpu_node)
  ∧ GpuIvf.Build (F := Toy.faiss) (G := Toy.gpu) (GT := Toy.trainer) IndexIVFPQ
      (Some toy_res) toy_store toy_gpu_node toy_ds2 toy_gpu_cfg 8 2 4
    = Returns (index_already_trained, toy_store, toy_gpu_node).
Proof.
  apply (gpu_build_only_once (F := Toy.faiss) (G := Toy.gpu) (GT := Toy.trainer)
           toy_gpu_train IndexIVFPQ (Some toy_res) ∅ gpu_empty toy_ds3
           toy_gpu_cfg 4 0 0).
  reflexivity.
Defined.

(** The small backend refuses to train on a negative row count. *)
Lemma gpu_train_error_keeps_state_witness :
  GpuIvf.Train (F := Toy.faiss) (G := Toy.gpu) (GT := Toy.trainer) IndexIVFFlat
    (Some toy_res) ∅ gpu_empty toy_ds_negative toy_gpu_cfg 4 0 0
    = Returns (faiss_inner_error, ∅, gpu_empty)
  ∧ (∅ : gmap loc Toy.index) = ∅ ∧ gpu_empty (F := Toy.faiss) (G := Toy.gpu) = gpu_empty.
Proof.
  split; [reflexivity|].
  apply (gpu_train_error_keeps_state (F := Toy.faiss) (G := Toy.gpu)
           (GT := Toy.trainer) IndexIVFFlat (Some toy_res) ∅ gpu_empty
           toy_ds_negative toy_gpu_cfg 4 0 0 faiss_inner_error);
    [reflexivity|discriminate].
Defined.

(** The small backend trains on three rows and then finds only two in the
    tensor: the two are in the index when [add] gives up. *)
Lemma gpu_build_failure_keeps_trained_instance_witness :
  ((<[1%positive := toy_index [4; 6]]> ∅ : gmap loc Toy.index) = ∅
   ∧ toy_gpu_node = gpu_empty (F := Toy.faiss) (G := Toy.gpu))
  ∨ (faiss_inner_error = faiss_inner_error
     ∧ (∃ res (ix : Toy.index),
          toy_gpu_node = {| GpuIvf.res_ := Some res;
                            GpuIvf.gpu_index_ := Some (fresh (dom (∅ : gmap loc Toy.index))) |}
          ∧ (<[1%positive := toy_index [4; 6]]> ∅ : gmap loc Toy.index)
            = <[fresh (dom (∅ : gmap loc Toy.index)) := ix]> ∅
          ∧ index_is_trained (Faiss := Toy.faiss) ix = true)
     ∧ ∀ gpu_res2 ds2 cfg2 nlist2 m2 nbits2,
         GpuIvf.Build (F := Toy.faiss) (G := Toy.gpu) (GT := Toy.trainer)
           IndexIVFFlat gpu_res2 (<[1%positive := toy_index [4; 6]]> ∅) toy_gpu_node
           ds2 cfg2 nlist2 m2 nbits2
         = Returns (index_already_trained, <[1%positive := toy_index [4; 6]]> ∅,
                    toy_gpu_node)).
Proof.
  apply (gpu_build_failure_keeps_trained_instance (F := Toy.faiss) (G := Toy.gpu)
           (GT := Toy.trainer) toy_storage toy_gpu_train IndexIVFFlat
           toy_gpu_add_failure (Some toy_res) ∅ gpu_empty toy_ds_short toy_gpu_cfg 4 0 0
           faiss_inner_error); [reflexivity|discriminate].
Defined.

(** ** The GPU node: the blocks of [Search] *)

Section GpuBlocks.
Context {F : Faiss} {G : FaissGpu F} (HK : GpuKernelContract F G).

Lemma written_inserts {A} (off : nat) (vs : list A) (l : list (option A)) :
  (off + length vs <= length l)%nat ->
  written off l -> written (off + length vs) (list_inserts off (Some <$> vs) l).
Proof.
  intros Hlen Hw p Hp. destruct (decide (p < off)%nat) as [Hlt|Hge].
  - rewrite list_lookup_inserts_lt by done. by apply Hw.
  - rewrite list_lookup_inserts by (rewrite ?length_fmap; lia).
    rewrite list_lookup_fmap.
    destruct (lookup_lt_is_Some_2 vs (p - off)%nat ltac:(lia)) as [a ->]. by exists a.
Qed.

Lemma block_count_lt rows (j : nat) :
  (j < Z.to_nat ((rows + GpuIvf.block_size - 1) / GpuIvf.block_size))%nat ->
  Z.of_nat j * GpuIvf.block_size < rows.
Proof.
  unfold GpuIvf.block_size. intros Hj.
  pose proof (Z.mul_div_le (rows + 2048 - 1) 2048 ltac:(lia)). nia.
Qed.

Lemma block_count_ge rows :
  0 <= rows ->
  rows <= Z.of_nat (Z.to_nat ((rows + GpuIvf.block_size - 1) / GpuIvf.block_size))
          * GpuIvf.block_size.
Proof.
  unfold GpuIvf.block_size. intros Hrows.
  pose proof (Z.mul_succ_div_gt (rows + 2048 - 1) 2048 ltac:(lia)).
  assert (0 <= (rows + 2048 - 1) / 2048) by (apply Z.div_pos; lia).
  rewrite Z2Nat.id by done. lia.
Qed.

Lemma search_blocks_fill gpu_index ds k bitset n :
  0 <= GetRows ds ->
  ∀ (j : nat) ids dis ids' dis',
    (j + n)%nat = Z.to_nat ((GetRows ds + GpuIvf.block_size - 1) / GpuIvf.block_size) ->
    length ids = Z.to_nat (GetRows ds * k) ->
    length dis = Z.to_nat (GetRows ds * k) ->
    written (Z.to_nat (Z.min (GetRows ds) (Z.of_nat j * GpuIvf.block_size) * k)) ids ->
    written (Z.to_nat (Z.min (GetRows ds) (Z.of_nat j * GpuIvf.block_size) * k)) dis ->
    GpuIvf.search_blocks false gpu_index ds k bitset
      ((fun b => Z.of_nat b * GpuIvf.block_size) <$> seq j n) ids dis
    = Returns (inr (ids', dis')) ->
    length ids' = Z.to_nat (GetRows ds * k)
    ∧ length dis' = Z.to_nat (GetRows ds * k)
    ∧ written (Z.to_nat (GetRows ds * k)) ids'
    ∧ written (Z.to_nat (GetRows ds * k)) dis'.
Proof.
  intros Hrows. induction n as [|n IH]; intros j ids dis ids' dis' Hj Hli Hld Hwi Hwd Hrun.
  { cbn in Hrun. injection Hrun as <- <-.
    pose proof (block_count_ge _ Hrows) as Hge. rewrite <- Hj, Nat.add_0_r in Hge.
    rewrite Z.min_l in Hwi, Hwd by done. done. }
  cbn [seq fmap list_fmap GpuIvf.search_blocks] in Hrun.
  pose proof (block_count_lt (GetRows ds) j ltac:(lia)) as Hlt.
  set (i := Z.of_nat j * GpuIvf.block_size) in *.
  set (size := if GetRows ds - i >? GpuIvf.block_size then GpuIvf.block_size
               else GetRows ds - i) in *.
  assert (Hsize : 0 < size ∧ Z.min (GetRows ds) (Z.of_nat (S j) * GpuIvf.block_size) = i + size).
  { unfold size, i, GpuIvf.block_size in *.
    destruct (_ >? _) eqn:Hgt; [apply Z.gtb_lt in Hgt|rewrite Z.gtb_ltb in Hgt; apply Z.ltb_ge in Hgt]; lia. }
  destruct Hsize as [Hpos Hmin].
  destruct gpu_index as [ix| |]; try done. cbn in Hrun.
  destruct (read_span _ _ _) as [q| |]; try done. cbn in Hrun.
  destruct (gpu_search ix q size k bitset) as [e|hs] eqn:Hs; [done|].
  pose proof (gpu_search_fills _ _ _ _ _ _ Hs) as Hlen.
  assert (Hk : 0 <= k) by nia.
  rewrite Z.min_r in Hwi, Hwd by lia.
  assert (Hi : 0 <= i) by (unfold i, GpuIvf.block_size; lia).
  assert (Hoff : Z.to_nat ((i + size) * k) = (Z.to_nat (i * k) + length hs)%nat).
  { rewrite Z.mul_add_distr_r, Z2Nat.inj_add by nia. lia. }
  assert (Hfit : (Z.to_nat (i * k) + length hs <= Z.to_nat (GetRows ds * k))%nat).
  { rewrite <- Hoff. apply Z2Nat.inj_le; nia. }
  apply (IH (S j)) in Hrun; [done|lia|by rewrite length_inserts..| |].
  - rewrite Hmin, Hoff. rewrite <- (length_fmap fst hs).
    apply written_inserts; [|done]. rewrite length_fmap. lia.
  - rewrite Hmin, Hoff. rewrite <- (length_fmap snd hs), list_fmap_compose.
    rewrite <- (length_fmap F32 (hs.*2)).
    apply written_inserts; [|done]. rewrite !length_fmap. lia.
Qed.

(** X19. [Search] of the GPU node hands the rows to the backend in blocks of
    2048; the blocks cover the batch: the two arrays of a successful [Search]
    on a batch with a row count of 0 or more have [rows * k] cells, every one
    of them written by some block. *)
Theorem gpu_search_blocks_cover_batch σ node ds cfg bitset nq kk ids dis σ' :
  0 <= GetRows ds ->
  GpuIvf.Search false σ node ds cfg bitset
    = Returns (value (TopK nq kk ids dis), σ') ->
  nq = GetRows ds ∧ kk = GpuIvf.k cfg
  ∧ length ids = Z.to_nat (nq * kk) ∧ length dis = Z.to_nat (nq * kk)
  ∧ written (Z.to_nat (nq * kk)) ids ∧ written (Z.to_nat (nq * kk)) dis.
Proof.
  intros Hrows. unfold GpuIvf.Search.
  destruct (_ <? GetRows ds); [done|].
  destruct (GpuIvf.search_blocks _ _ _ _ _ _ _ _) as [[e|[ids' dis']]| |] eqn:Hrun;
    try done.
  cbn. intros [= <- <- <- <- _].
  unfold GpuIvf.block_starts in Hrun.
  apply search_blocks_fill in Hrun; try done.
  - by rewrite length_replicate.
  - by rewrite length_replicate.
  - intros p Hp. cbn in Hp. lia.
  - intros p Hp. cbn in Hp. lia.
Qed.

End GpuBlocks.

(** The GPU node with three vectors, a batch of two rows, [k = 2]. *)
Lemma gpu_search_blocks_cover_batch_witness :
  ∃ ids dis σ',
    GpuIvf.Search (F := Toy.faiss) (G := Toy.gpu) false toy_store toy_gpu_node
      toy_ds2 toy_gpu_cfg [] = Returns (value (TopK 2 2 ids dis), σ')
    ∧ 2 = GetRows toy_ds2 ∧ 2 = GpuIvf.k toy_gpu_cfg
    ∧ length ids = Z.to_nat (2 * 2) ∧ length dis = Z.to_nat (2 * 2)
    ∧ written (Z.to_nat (2 * 2)) ids ∧ written (Z.to_nat (2 * 2)) dis.
Proof.
  eexists _, _, _. split; [reflexivity|].
  eapply (gpu_search_blocks_cover_batch (F := Toy.faiss) (G := Toy.gpu)
           toy_gpu_kernel toy_store toy_gpu_node toy_ds2 toy_gpu_cfg []);
    [by vm_compute|reflexivity].
Defined.

Section GpuBlockAnswers.
Context {F : Faiss} {G : FaissGpu F} (HK : GpuKernelContract F G).




End GpuBlockAnswers.


Section GpuRoundTrip.
Context {F : Faiss} {G : FaissGpu F}.
Context (HC : CodecContract F) (HX : TransferContract F G).

(** X21. What [Serialize] of the GPU node writes, [Deserialize] reads back:
    the blob is found under the same name, and [Deserialize] either returns
    [faiss_inner_error] and changes nothing (the copy to the device threw) or
    succeeds with a node that reports the [Count] and [Dim] of the node that
    was serialized. *)
Theorem gpu_round_trip_keeps_count σ node binset binset' res σ0 node0 :
  GpuIvf.Serialize σ node binset = Returns (success, binset') ->
  ∃ s σ' node',
    GpuIvf.Deserialize (Some res) σ0 node0 binset' = Returns (s, σ', node')
    ∧ ((s = faiss_inner_error ∧ σ' = σ0 ∧ node' = node0)
       ∨ (s = success
          ∧ GpuIvf.Count σ' node' = GpuIvf.Count σ node
          ∧ GpuIvf.Dim σ' node' = GpuIvf.Dim σ node)).
Proof.
  unfold GpuIvf.Serialize. intros Hser.
  destruct (GpuIvf.gpu_index_ node) as [l|] eqn:Hl; [|done]. cbn in Hser.
  destruct (σ !! l) as [ix|] eqn:Hix; [|done]. cbn in Hser.
  destruct (negb _); [done|].
  destruct (index_gpu_to_cpu ix) as [e|host] eqn:Hcpu; [done|].
  destruct (write_index host) as [e|bytes] eqn:Hw; [done|].
  injection Hser as <-.
  unfold GpuIvf.Deserialize, GetByName, Append.
  rewrite lookup_insert_eq, reader_bytes_appended, (read_write_index _ _ Hw).
  destruct (index_cpu_to_gpu res host) as [e|g] eqn:Hgpu.
  { eexists _, _, _. split; [done|]. by left. }
  eexists _, _, _. split; [done|]. right. split; [done|].
  destruct (to_cpu_keeps _ _ Hcpu) as [Hn Hd].
  destruct (to_gpu_keeps _ _ _ Hgpu) as [Hn' Hd'].
  unfold GpuIvf.Count, GpuIvf.Dim. rewrite Hl. cbn.
  rewrite lookup_insert_eq, Hix. cbn. split; f_equal; congruence.
Qed.

End GpuRoundTrip.

(** The GPU node with three vectors is serialized and read back. *)
Lemma gpu_round_trip_keeps_count_witness :
  ∃ s (σ' : gmap loc Toy.index) node',
    GpuIvf.Deserialize (F := Toy.faiss) (G := Toy.gpu) (Some toy_res) ∅ gpu_empty
      (Append "IVF" [0; 1; 2; 1; 4; 6; 20] 7 ∅) = Returns (s, σ', node')
    ∧ ((s = faiss_inner_error ∧ σ' = ∅ ∧ node' = gpu_empty)
       ∨ (s = success
          ∧ GpuIvf.Count (F := Toy.faiss) (G := Toy.gpu) σ' node'
            = GpuIvf.Count (F := Toy.faiss) (G := Toy.gpu) toy_store toy_gpu_node
          ∧ GpuIvf.Dim (F := Toy.faiss) (G := Toy.gpu) σ' node'
            = GpuIvf.Dim (F := Toy.faiss) (G := Toy.gpu) toy_store toy_gpu_node)).
Proof.
  apply (gpu_round_trip_keeps_count (F := Toy.faiss) (G := Toy.gpu) toy_codec
           toy_transfer toy_store toy_gpu_node ∅).
  reflexivity.
Defined.

Section GpuFrame.
Context {F : Faiss} {G : FaissGpu F} {GT : FaissGpuTrain F G}.
Variable T : IvfKind.

Lemma fresh_not_in (σ : gmap loc Index) l ix :
  σ !! l = Some ix -> fresh (dom σ) ≠ l.
Proof.
  intros Hl Heq. apply (is_fresh (dom σ)). rewrite Heq. by apply elem_of_dom.
Qed.

Lemma gpu_train_frame gpu_res σ node ds cfg nlist m nbits s σ' node' l ix :
  GpuIvf.Train T gpu_res σ node ds cfg nlist m nbits = Returns (s, σ', node') ->
  σ !! l = Some ix ->
  σ' !! l = Some ix ∧ (GpuIvf.gpu_index_ node ≠ Some l -> GpuIvf.gpu_index_ node' ≠ Some l).
Proof.
  unfold GpuIvf.Train. intros Ht Hl.
  destruct (match GpuIvf.gpu_index_ node with Some _ => _ | None => _ end)
    as [[]| |]; try done; cbn in Ht.
  { by injection Ht as _ <- <-. }
  destruct (Str2FaissMetricType _) as [metric|e]; [|by injection Ht as _ <- <-].
  destruct gpu_res as [res|]; [|done].
  destruct (gpu_index_new _ _) as [e|ix0]; [by injection Ht as _ <- <-|].
  destruct (index_train _ _ _) as [e|ix1]; [by injection Ht as _ <- <-|].
  injection Ht as _ <- <-. pose proof (fresh_not_in _ _ _ Hl) as Hne.
  rewrite lookup_insert_ne by done. split; [done|]. cbn. congruence.
Qed.

Lemma gpu_add_frame σ node ds cfg s σ' node' l ix :
  GpuIvf.Add σ node ds cfg = Returns (s, σ', node') ->
  σ !! l = Some ix ->
  is_Some (σ' !! l) ∧ node' = node
  ∧ (GpuIvf.gpu_index_ node ≠ Some l -> σ' !! l = Some ix).
Proof.
  unfold GpuIvf.Add. intros Ha Hl.
  destruct (GpuIvf.gpu_index_ node) as [l0|]; [|by injection Ha as _ <- <-].
  cbn in Ha. destruct (σ !! l0) as [ix0|]; [|done]. cbn in Ha.
  destruct (negb _); [by injection Ha as _ <- <-|].
  destruct (index_add _ _ _); injection Ha as _ <- <-.
  all: split_and!; [|done|].
  all: try (destruct (decide (l0 = l)) as [->|];
            [by rewrite lookup_insert_eq|by rewrite lookup_insert_ne]).
  all: intros Hne; rewrite lookup_insert_ne by congruence; done.
Qed.

(** X22. No call on the GPU node frees an instance: whatever [Train],
    [Build], [Add] or [Deserialize] return, every instance that was live
    before the call is live after it, and an instance the node did not
    point to is unchanged and still not pointed to.  Only the destructor
    deletes, and only what [gpu_index_] points to then. *)
Theorem gpu_calls_free_nothing c σ node s σ' node' l ix :
  GpuIvf.do_call T c σ node = Returns (s, σ', node') ->
  σ !! l = Some ix ->
  is_Some (σ' !! l)
  ∧ (GpuIvf.gpu_index_ node ≠ Some l ->
     σ' !! l = Some ix ∧ GpuIvf.gpu_index_ node' ≠ Some l).
Proof.
  intros Hcall Hl. destruct c as [gpu_res ds cfg nlist m nbits
    |gpu_res ds cfg nlist m nbits|ds cfg|gpu_res binset]; cbn in Hcall.
  - destruct (gpu_train_frame _ _ _ _ _ _ _ _ _ _ _ _ _ Hcall Hl) as [H1 H2].
    split; [by rewrite H1|]. intros Hne. split; [done|]. by apply H2.
  - unfold GpuIvf.Build in Hcall.
    destruct (GpuIvf.Train _ _ _ _ _ _ _ _ _) as [[[s1 σ1] node1]| |] eqn:Ht; try done.
    destruct (gpu_train_frame _ _ _ _ _ _ _ _ _ _ _ _ _ Ht Hl) as [H1 H2].
    cbn in Hcall.
    assert (Hcases : (s1 = success ∧ GpuIvf.Add σ1 node1 ds cfg = Returns (s, σ', node'))
                     ∨ (σ' = σ1 ∧ node' = node1)).
    { destruct s1; (by left) || (right; by injection Hcall as _ <- <-). }
    destruct Hcases as [[-> Ha]|[-> ->]].
    + destruct (gpu_add_frame _ _ _ _ _ _ _ _ _ Ha H1) as (H3 & -> & H4).
      split; [done|]. intros Hne. split; [apply H4|]; by apply H2.
    + split; [by rewrite H1|]. intros Hne. split; [done|]. by apply H2.
  - destruct (gpu_add_frame _ _ _ _ _ _ _ _ _ Hcall Hl) as (H3 & -> & H4).
    split; [done|]. intros Hne. split; [by apply H4|done].
  - unfold GpuIvf.Deserialize in Hcall.
    destruct (GetByName _ _) as [binary|]; [|done].
    destruct (read_index _) as [e|index].
    { injection Hcall as _ <- <-. split; [by rewrite Hl|done]. }
    destruct gpu_res as [res|]; [|done].
    destruct (index_cpu_to_gpu _ _) as [e|g].
    { injection Hcall as _ <- <-. split; [by rewrite Hl|done]. }
    injection Hcall as _ <- <-. pose proof (fresh_not_in _ _ _ Hl) as Hne.
    rewrite lookup_insert_ne by done. split; [by rewrite Hl|].
    intros _. split; [done|]. cbn. congruence.
Qed.

End GpuFrame.

(** A fresh GPU node reads a blob while another node's instance is live. *)
Lemma gpu_calls_free_nothing_witness :
  is_Some ((<[2%positive := toy_index [7]]> toy_store) !! 1%positive)
  ∧ (GpuIvf.gpu_index_ (gpu_empty (F := Toy.faiss) (G := Toy.gpu)) ≠ Some 1%positive ->
     (<[2%positive := toy_index [7]]> toy_store) !! 1%positive
       = Some (toy_index [4; 6; 20])
     ∧ GpuIvf.gpu_index_
         {| GpuIvf.res_ := Some toy_res; GpuIvf.gpu_index_ := Some 2%positive |}
       ≠ Some 1%positive).
Proof.
  apply (gpu_calls_free_nothing (F := Toy.faiss) (G := Toy.gpu) (GT := Toy.trainer)
           IndexIVFFlat (GpuIvf.CallDeserialize (Some toy_res) toy_ivf_binset)
           toy_store gpu_empty success); reflexivity.
Defined.

Module UtilsMore.
Import Utils.

Lemma fgets_chars_take n : ∀ stream,
  fgets_chars n (take n stream) = fgets_chars n stream.
Proof.
  induction n as [|n IH]; intros [|c rest]; cbn; try done.
  destruct (Ascii.eqb c newline); [done|]. by rewrite IH.
Qed.

(** X23. [GetThreadNum] looks at no more than the first six characters of
    what the command prints ([fgets] with a buffer of [THREAD_LENGTH] = 7):
    cutting the output after six characters changes nothing. *)
Theorem GetThreadNum_reads_six_chars (popen : string -> option (list ascii)) (id : Z) :
  GetThreadNum (fun cmd => take 6 <$> popen cmd) id = GetThreadNum popen id.
Proof.
  unfold GetThreadNum. destruct (popen _) as [stream|]; [|done]. cbn [fmap option_fmap option_map].
  unfold fgets, THREAD_LENGTH. cbn [Nat.sub]. by rewrite fgets_chars_take.
Qed.

Lemma digit_char_facts d :
  0 <= d <= 9 ->
  digit (digit_char d) = Some d
  ∧ Ascii.eqb (digit_char d) newline = false
  ∧ Ascii.eqb (digit_char d) NUL = false
  ∧ isspace (digit_char d) = false
  ∧ Ascii.eqb (digit_char d) "-" = false
  ∧ Ascii.eqb (digit_char d) "+" = false.
Proof.
  intros Hd.
  assert (Hcases : d = 0 ∨ d = 1 ∨ d = 2 ∨ d = 3 ∨ d = 4 ∨ d = 5 ∨ d = 6
                   ∨ d = 7 ∨ d = 8 ∨ d = 9) by lia.
  repeat (destruct Hcases as [->|Hcases]); try subst d; by vm_compute.
Qed.

Lemma fgets_chars_digits ds rest : ∀ n,
  Forall (fun d => 0 <= d <= 9) ds -> (length ds < n)%nat ->
  fgets_chars n ((digit_char <$> ds) ++ newline :: rest)
  = (digit_char <$> ds) ++ [newline].
Proof.
  induction ds as [|d ds IH]; intros n Hds Hn; cbn in *.
  - destruct n; [lia|]. done.
  - destruct n; [lia|]. cbn. apply Forall_cons in Hds as [Hd Hds].
    destruct (digit_char_facts d Hd) as (_ & -> & _). f_equal. apply IH; [done|lia].
Qed.

Lemma c_str_digits ds :
  Forall (fun d => 0 <= d <= 9) ds ->
  c_str ((digit_char <$> ds) ++ [newline]) = (digit_char <$> ds) ++ [newline].
Proof.
  induction 1 as [|d ds Hd _ IH]; cbn; [done|].
  destruct (digit_char_facts d Hd) as (_ & _ & -> & _). by rewrite IH.
Qed.

Lemma chomp_newline s : chomp (s ++ [newline]) = s.
Proof.
  unfold chomp. rewrite last_snoc. cbn.
  rewrite length_app. cbn. rewrite Nat.add_sub. by rewrite take_app_length.
Qed.

Lemma atoi_digits_decimal ds : ∀ acc,
  Forall (fun d => 0 <= d <= 9) ds ->
  atoi_digits acc (digit_char <$> ds) = foldl (fun acc d => 10 * acc + d) acc ds.
Proof.
  induction ds as [|d ds IH]; intros acc Hds; cbn; [done|].
  apply Forall_cons in Hds as [Hd Hds].
  destruct (digit_char_facts d Hd) as (-> & _). by apply IH.
Qed.

Lemma decimal_bound ds : ∀ acc,
  Forall (fun d => 0 <= d <= 9) ds -> 0 <= acc ->
  0 <= foldl (fun acc d => 10 * acc + d) acc ds
    <= (acc + 1) * 10 ^ Z.of_nat (length ds) - 1.
Proof.
  induction ds as [|d ds IH]; intros acc Hds Hacc; cbn [foldl length].
  - cbn. lia.
  - apply Forall_cons in Hds as [Hd Hds].
    specialize (IH (10 * acc + d) Hds ltac:(lia)).
    assert (0 < 10 ^ Z.of_nat (length ds)) by (apply Z.pow_pos_nonneg; lia).
    rewrite Nat2Z.inj_succ, Z.pow_succ_r by lia. nia.
Qed.

(** X24. When the first line the command prints is a number of one to five
    decimal digits, [GetThreadNum] returns that number. *)
Theorem GetThreadNum_returns_printed_count
    (popen : string -> option (list ascii)) (id : Z) ds rest :
  Forall (fun d => 0 <= d <= 9) ds ->
  (1 <= length ds <= 5)%nat ->
  popen ("ps -p " +:+ pretty id +:+ " -Tf | wc -l")%string
    = Some ((digit_char <$> ds) ++ newline :: rest) ->
  GetThreadNum popen id = Returns (decimal ds).
Proof.
  intros Hds Hlen Hpopen. unfold GetThreadNum. rewrite Hpopen.
  unfold fgets, THREAD_LENGTH. cbn [Nat.sub].
  rewrite fgets_chars_digits by (done || lia).
  destruct ds as [|d ds]; [cbn in Hlen; lia|].
  cbn [fmap list_fmap app].
  change (digit_char d :: (digit_char <$> ds) ++ [newline])
    with ((digit_char <$> d :: ds) ++ [newline]).
  rewrite c_str_digits, chomp_newline by done.
  pose proof (decimal_bound (d :: ds) 0 Hds ltac:(lia)) as Hb.
  assert (Hpow : 10 ^ Z.of_nat (length (d :: ds)) <= 10 ^ 5)
    by (apply Z.pow_le_mono_r; lia).
  assert (Hatoi : atoi (digit_char <$> d :: ds) = decimal (d :: ds)).
  { unfold atoi, decimal. cbn [fmap list_fmap skip_spaces].
    apply Forall_cons in Hds as Hds'. destruct Hds' as [Hd _].
    destruct (digit_char_facts d Hd) as (_ & _ & _ & -> & -> & ->).
    change (digit_char d :: (digit_char <$> ds)) with (digit_char <$> d :: ds).
    by apply atoi_digits_decimal. }
  rewrite Hatoi. fold (decimal (d :: ds)) in Hb.
  unfold MIN_THREAD_NUM, MAX_THREAD_NUM.
  destruct (_ <? 0) eqn:Hlo; [apply Z.ltb_lt in Hlo; lia|].
  destruct (_ >? 100000) eqn:Hhi; [apply Z.gtb_lt in Hhi; lia|]. done.
Qed.

Lemma GetThreadNum_returns_printed_count_witness :
  GetThreadNum (fun _ => Some ["3"; "7"; newline]%char) 4242 = Returns (decimal [3; 7]).
Proof.
  apply (GetThreadNum_returns_printed_count (fun _ => Some ["3"; "7"; newline]%char)
           4242 [3; 7] []); [repeat constructor; lia|cbn; lia|reflexivity].
Defined.

(** X25. [atoi] cannot overflow in [GetThreadNum]: whatever the command
    prints, the number parsed from the buffer has at most six digits. *)
Theorem GetThreadNum_atoi_no_overflow stream fBuff :
  fgets THREAD_LENGTH stream = Some fBuff ->
  (length fBuff <= 6)%nat
  ∧ - 1000000 < atoi (chomp (c_str fBuff)) < 1000000.
Proof.
  intros Hf. split; [|by eapply UtilsFacts.parsed_fits_int32].
  unfold fgets in Hf. pose proof (UtilsFacts.fgets_chars_length (THREAD_LENGTH - 1) stream) as Hlen.
  destruct (fgets_chars _ stream) eqn:Hbuf; [done|]. injection Hf as <-. exact Hlen.
Qed.

Lemma GetThreadNum_atoi_no_overflow_witness :
  (length (list_ascii_of_string "123456") <= 6)%nat
  ∧ - 1000000 < atoi (chomp (c_str (list_ascii_of_string "123456"))) < 1000000.
Proof.
  apply (GetThreadNum_atoi_no_overflow (list_ascii_of_string "1234567")).
  reflexivity.
Defined.

End UtilsMore.

(** ** The join loop under every schedule *)

Module ExecutorMore.
Import Executor.
Local Open Scope nat_scope.

(** X26. Whatever the order in which the tasks complete and the caller
    collects them: when the join loop ends normally every task has run to its
    end and none has thrown; when it ends in the handler, the task it stopped
    at has thrown and is the first in row order to do so.  The status is
    thereby fixed by the outcomes of the tasks, not by the schedule. *)
Theorem join_status_independent_of_schedule outs evs s :
  returned (run outs evs) = Some s ->
  s = (if existsb (fun o => bool_decide (is_Some o)) outs
       then faiss_inner_error else success)
  ∧ (s = success -> all_completed (run outs evs))
  ∧ (s = faiss_inner_error ->
     ∃ i e, outs !! i = Some (Some e)
            ∧ completed (run outs evs) !! i = Some true
            ∧ ∀ j, j < i -> outs !! j = Some None).
Proof.
  intros Hret. destruct (ExecutorFacts.invariant_run outs evs) as [Hlen Hj Hb Hs He Hst].
  destruct (Hst s Hret) as [-> | ->].
  - split_and!; [|by intros; apply ExecutorFacts.join_success_all_completed|done].
    specialize (Hs Hret).
    destruct (existsb _ outs) eqn:Hex; [|done].
    apply existsb_exists in Hex as (o & Hin & Ho).
    apply list_elem_of_In, list_elem_of_lookup in Hin as [i Hi].
    apply lookup_lt_Some in Hi as Hlt.
    destruct (Hj i ltac:(lia)) as [_ Hnone]. rewrite Hi in Hnone.
    injection Hnone as ->. done.
  - destruct (He Hret) as (e & Ho & Hc). split_and!; [|done|].
    + destruct (existsb _ outs) eqn:Hex; [done|].
      assert (Hin : In (Some e) outs).
      { apply list_elem_of_In, list_elem_of_lookup. eauto. }
      assert (existsb (fun o : option exn => bool_decide (is_Some o)) outs = true)
        by (apply existsb_exists; exists (Some e); split; [done|]; by apply bool_decide_eq_true_2).
      congruence.
    + intros _. exists (joined (run outs evs)), e. split_and!; [done..|].
      intros j Hlt. by destruct (Hj j Hlt).
Qed.

(** Two tasks, the first of which throws and completes first. *)
Lemma join_status_independent_of_schedule_witness :
  let outs := [Some "Error: 'k > 0' failed"%string; None] in
  let st := run outs [Complete 0; Get] in
  faiss_inner_error
    = (if existsb (fun o => bool_decide (is_Some o)) outs
       then faiss_inner_error else success)
  ∧ (faiss_inner_error = success -> all_completed st)
  ∧ (faiss_inner_error = faiss_inner_error ->
     ∃ i e, outs !! i = Some (Some e) ∧ completed st !! i = Some true
            ∧ ∀ j, j < i -> outs !! j = Some None).
Proof.
  apply (join_status_independent_of_schedule
           [Some "Error: 'k > 0' failed"%string; None] [Complete 0; Get]).
  reflexivity.
Defined.

End ExecutorMore.
